(** * TinyPacks (python3/tinypacks.py): a shallow embedding of [dumpb] and
    [_loadb]/[loadb], and the properties of the codec.

    Python objects are modelled by the inductive [Value]; a [bytes] object is
    a [list byte]; Python integers are [Z]; exceptions are the [Raise]
    outcomes of the [result] type.  The functions of the [struct] module the
    source calls ([pack], [unpack]) are modelled format by format, with the
    exceptions they raise. *)

From Stdlib Require Import ZArith List Bool Lia String Ascii.
From Stdlib.Strings Require Import Byte.
Import ListNotations.
Open Scope Z_scope.
Set Warnings "-register-all".

(** ** Exceptions and results *)

Inductive exn : Type :=
| ValueError (msg : string)
| StructError          (* struct.error *)
| TypeError
| IndexError
| UnicodeError         (* UnicodeDecodeError / UnicodeEncodeError *)
| OverflowError
| UnboundLocalError
| OutOfFuel.           (* the fuel of the model ran out; never for [_loadb] *)

Inductive result (A : Type) : Type :=
| Ok (a : A)
| Raise (e : exn).
Arguments Ok {A} a.
Arguments Raise {A} e.

Definition bind {A B : Type} (c : result A) (k : A -> result B) : result B :=
  match c with
  | Ok a => k a
  | Raise e => Raise e
  end.

Notation "x <- c ;; k" := (bind c (fun x => k))
  (at level 61, c at next level, right associativity).

(** ** Bytes *)

Definition b2z (b : byte) : Z := Z.of_N (Byte.to_N b).

Definition z2b (z : Z) : byte :=
  match Byte.of_N (Z.to_N z) with
  | Some b => b
  | None => x00
  end.

(** [ba[lo:hi]] and [ba[lo:]] for non-negative bounds: Python clips a slice
    to the sequence and never raises. *)
Definition py_slice (lo hi : Z) (ba : list byte) : list byte :=
  firstn (Z.to_nat (hi - lo)) (skipn (Z.to_nat lo) ba).

Definition py_slice_from (lo : Z) (ba : list byte) : list byte :=
  skipn (Z.to_nat lo) ba.

Definition len {A : Type} (l : list A) : Z := Z.of_nat (List.length l).

(** Big-endian bytes of the low [n] bytes of [z], and the value of a
    big-endian byte string. *)
Fixpoint be_bytes (n : nat) (z : Z) : list byte :=
  match n with
  | O => []
  | S k => z2b ((z / 256 ^ Z.of_nat k) mod 256) :: be_bytes k z
  end.

Definition be_value (l : list byte) : Z :=
  fold_left (fun acc b => acc * 256 + b2z b) l 0.

Definition to_signed (n : nat) (u : Z) : Z :=
  if u <? 2 ^ (8 * Z.of_nat n - 1) then u else u - 2 ^ (8 * Z.of_nat n).

(** ** The [struct] module, format by format

    [pack_unsigned n v] is [pack] of one unsigned field of [n] bytes ("B",
    "H", "L" in standard size), [pack_signed n v] of one signed field ("b",
    "h", "l", "q"); both raise [struct.error] when the value is out of the
    field's range.  [unpack_exact n] is the length check of [unpack]: the
    buffer must have exactly the size the format requires. *)
Definition pack_unsigned (n : nat) (v : Z) : result (list byte) :=
  if (0 <=? v) && (v <? 2 ^ (8 * Z.of_nat n)) then Ok (be_bytes n v)
  else Raise StructError.

Definition pack_signed (n : nat) (v : Z) : result (list byte) :=
  if (- 2 ^ (8 * Z.of_nat n - 1) <=? v) && (v <? 2 ^ (8 * Z.of_nat n - 1))
  then Ok (be_bytes n v)
  else Raise StructError.

Definition unpack_exact (n : nat) (buf : list byte) : result (list byte) :=
  if Nat.eqb (List.length buf) n then Ok buf else Raise StructError.

Definition unpack_signed (n : nat) (buf : list byte) : result Z :=
  raw <- unpack_exact n buf ;;
  Ok (to_signed n (be_value raw)).

(** [unpack(">BH", buf)]: one unsigned byte, then an unsigned 16-bit field. *)
Definition unpack_BH (buf : list byte) : result (Z * Z) :=
  raw <- unpack_exact 3 buf ;;
  Ok (be_value (firstn 1 raw), be_value (skipn 1 raw)).

(** ** Floats

    A Python float is an IEEE-754 binary64 number, modelled by its 64-bit
    pattern (sign, 11 exponent bits, 52 fraction bits) as a [Z] in
    [0, 2^64).  The "d" format stores the pattern; the "f" format rounds to
    binary32 (to nearest, ties to even) and raises [OverflowError] when a
    finite number rounds to an infinity. *)
Definition float_is_zero (bits : Z) : bool :=
  (bits =? 0) || (bits =? 2 ^ 63).

Definition f64_to_f32 (bits : Z) : result Z :=
  let s := (bits / 2 ^ 63) mod 2 in
  let e := (bits / 2 ^ 52) mod 2048 in
  let m := bits mod 2 ^ 52 in
  let sign32 := s * 2 ^ 31 in
  if e =? 2047 then
    if m =? 0 then Ok (sign32 + 0x7F800000)
    else Ok (sign32 + 0x7F800000 + Z.lor (m / 2 ^ 29) (2 ^ 22))
  else if e =? 0 then Ok sign32
  else
    let M := 2 ^ 52 + m in
    let E := e - 1023 in
    let sh := if -126 <=? E then 29 else - E - 97 in
    let q := M / 2 ^ sh in
    let r := M mod 2 ^ sh in
    let half := 2 ^ (sh - 1) in
    let q' := if (half <? r) || ((r =? half) && Z.odd q) then q + 1 else q in
    let base := if -126 <=? E then (E + 126) * 2 ^ 23 else 0 in
    let mag := base + q' in
    if 0x7F800000 <=? mag then Raise OverflowError else Ok (sign32 + mag).

Definition f32_to_f64 (bits : Z) : Z :=
  let s := (bits / 2 ^ 31) mod 2 in
  let e := (bits / 2 ^ 23) mod 256 in
  let m := bits mod 2 ^ 23 in
  let sign64 := s * 2 ^ 63 in
  if e =? 255 then
    if m =? 0 then sign64 + 2047 * 2 ^ 52
    else sign64 + 2047 * 2 ^ 52 + Z.lor (m * 2 ^ 29) (2 ^ 51)
  else if e =? 0 then
    if m =? 0 then sign64
    else
      let k := Z.log2 m in
      sign64 + (k - 149 + 1023) * 2 ^ 52 + (m - 2 ^ k) * 2 ^ (52 - k)
  else sign64 + (e - 127 + 1023) * 2 ^ 52 + m * 2 ^ 29.

(** The number a float stands for: [Fin m e] is [m * 2^e]. *)
Inductive num : Type :=
| Fin (m e : Z)
| Inf (neg : bool)
| NaN.

Definition float_num (bits : Z) : num :=
  let s := (bits / 2 ^ 63) mod 2 in
  let e := (bits / 2 ^ 52) mod 2048 in
  let m := bits mod 2 ^ 52 in
  if e =? 2047 then
    if m =? 0 then Inf (s =? 1) else NaN
  else
    let M := if e =? 0 then m else 2 ^ 52 + m in
    let k := if e =? 0 then -1074 else e - 1075 in
    Fin (if s =? 1 then - M else M) k.

(** [x == y] on numbers: Python compares [int] and [float] values exactly;
    a NaN equals nothing. *)
Definition num_eqb (a b : num) : bool :=
  match a, b with
  | Fin m1 e1, Fin m2 e2 =>
    let k := Z.min e1 e2 in
    m1 * 2 ^ (e1 - k) =? m2 * 2 ^ (e2 - k)
  | Inf s1, Inf s2 => Bool.eqb s1 s2
  | _, _ => false
  end.

(** ** UTF-8

    A Python [str] is modelled by its UTF-8 encoding, so [bytes(s, "utf_8")]
    is the underlying byte list and [b.decode("utf8")] succeeds exactly on
    the well-formed byte strings (no overlong forms, no surrogates, nothing
    above U+10FFFF). *)
Definition in_range (lo hi : Z) (b : byte) : bool :=
  (lo <=? b2z b) && (b2z b <=? hi).

Fixpoint valid_utf8 (l : list byte) : bool :=
  match l with
  | [] => true
  | b0 :: t0 =>
    let z0 := b2z b0 in
    if z0 <? 0x80 then valid_utf8 t0
    else if (0xC2 <=? z0) && (z0 <=? 0xDF) then
      match t0 with
      | b1 :: t1 => in_range 0x80 0xBF b1 && valid_utf8 t1
      | _ => false
      end
    else if (0xE0 <=? z0) && (z0 <=? 0xEF) then
      match t0 with
      | b1 :: b2 :: t2 =>
        in_range (if z0 =? 0xE0 then 0xA0 else 0x80)
                 (if z0 =? 0xED then 0x9F else 0xBF) b1
        && in_range 0x80 0xBF b2 && valid_utf8 t2
      | _ => false
      end
    else if (0xF0 <=? z0) && (z0 <=? 0xF4) then
      match t0 with
      | b1 :: b2 :: b3 :: t3 =>
        in_range (if z0 =? 0xF0 then 0x90 else 0x80)
                 (if z0 =? 0xF4 then 0x8F else 0xBF) b1
        && in_range 0x80 0xBF b2 && in_range 0x80 0xBF b3 && valid_utf8 t3
      | _ => false
      end
    else false
  end.

Definition str_encode_utf8 (s : list byte) : result (list byte) :=
  if valid_utf8 s then Ok s else Raise UnicodeError.

Definition bytes_decode_utf8 (b : list byte) : result (list byte) :=
  if valid_utf8 b then Ok b else Raise UnicodeError.

(** ** [struct.pack(fmt)] with a format and no value

    The list branch of [dumpb] calls [pack(value)], which is [struct.pack]
    with [value] in the place of the format.  A format is a [str] or [bytes]
    object, anything else raises [TypeError].  With no value to pack, the
    call returns only when every item of the format takes no argument (pad
    bytes "x", or items with a zero count), and the result is that many zero
    bytes.  Sizes and alignments are those of CPython on an LP64 platform. *)
Definition fmt_entry (native : bool) (c : ascii) : option (Z * Z) :=
  match c with
  | "x" | "b" | "B" | "c" | "s" | "p" | "?" => Some (1, 0)
  | "h" | "H" | "e" => Some (2, if native then 2 else 0)
  | "i" | "I" | "f" => Some (4, if native then 4 else 0)
  | "l" | "L" => if native then Some (8, 8) else Some (4, 0)
  | "q" | "Q" | "d" => Some (8, if native then 8 else 0)
  | "n" | "N" | "P" => if native then Some (8, 8) else None
  | _ => None
  end%char.

Definition fmt_is_space (c : ascii) : bool :=
  match c with
  | " " | "009" | "010" | "011" | "012" | "013" => true
  | _ => false
  end%char.

Definition fmt_digit (c : ascii) : option Z :=
  let n := Z.of_N (N_of_ascii c) in
  if (48 <=? n) && (n <=? 57) then Some (n - 48) else None.

Definition PY_SSIZE_T_MAX : Z := 2 ^ 63 - 1.

Definition fmt_item (native : bool) (c : ascii) (num size nargs : Z)
  : result (Z * Z) :=
  match fmt_entry native c with
  | None => Raise StructError
  | Some (itemsize, alignment) =>
    let nargs' :=
      match c with
      | "s" | "p" => nargs + 1
      | "x" => nargs
      | _ => nargs + num
      end%char in
    let aligned :=
      if (0 <? alignment) && (0 <? size)
      then (size + alignment - 1) / alignment * alignment
      else size in
    let size' := aligned + num * itemsize in
    if PY_SSIZE_T_MAX <? size' then Raise StructError else Ok (size', nargs')
  end.

Fixpoint fmt_scan (native : bool) (fmt : list byte) (num : option Z)
  (size nargs : Z) : result (Z * Z) :=
  match fmt with
  | [] =>
    match num with
    | Some _ => Raise StructError
    | None => Ok (size, nargs)
    end
  | b :: rest =>
    let c := ascii_of_byte b in
    match num, fmt_digit c with
    | None, Some d => fmt_scan native rest (Some d) size nargs
    | Some n, Some d =>
      if PY_SSIZE_T_MAX <? 10 * n + d then Raise StructError
      else fmt_scan native rest (Some (10 * n + d)) size nargs
    | None, None =>
      if fmt_is_space c then fmt_scan native rest None size nargs
      else
        st <- fmt_item native c 1 size nargs ;;
        fmt_scan native rest None (fst st) (snd st)
    | Some n, None =>
      st <- fmt_item native c n size nargs ;;
      fmt_scan native rest None (fst st) (snd st)
    end
  end.

Definition struct_pack_bare (fmt : list byte) : result (list byte) :=
  let '(native, body) :=
    match fmt with
    | b :: rest =>
      match ascii_of_byte b with
      | "<" | ">" | "!" | "=" => (false, rest)
      | "@" => (true, rest)
      | _ => (true, fmt)
      end%char
    | [] => (true, [])
    end in
  st <- fmt_scan native body None 0 0 ;;
  if snd st =? 0 then Ok (repeat x00 (Z.to_nat (fst st)))
  else Raise StructError.

(** ** Values

    The objects [dumpb] accepts and [_loadb] builds.  A [str] is held as its
    UTF-8 bytes, a float as its binary64 pattern, a [dict] as its items in
    insertion order.  ([dumpb] sends a tuple through the list branch and a
    bytearray through the bytes branch; they are not told apart here.) *)
Inductive Value : Type :=
| VNone
| VBool (b : bool)
| VInt (n : Z)
| VReal (bits : Z)
| VStr (utf8 : list byte)
| VBytes (bs : list byte)
| VList (items : list Value)
| VMap (items : list (Value * Value)).

Definition dict : Type := list (Value * Value).

(** [hash(key)] raises [TypeError] on a list and on a dict. *)
Definition hashable (v : Value) : bool :=
  match v with
  | VList _ | VMap _ => false
  | _ => true
  end.

Fixpoint bytes_eqb (a b : list byte) : bool :=
  match a, b with
  | [], [] => true
  | x :: a', y :: b' => Byte.eqb x y && bytes_eqb a' b'
  | _, _ => false
  end.

(** The numeric value of a key: [bool], [int] and [float] keys compare by
    value ([True == 1 == 1.0]). *)
Definition key_num (v : Value) : option num :=
  match v with
  | VBool b => Some (Fin (if b then 1 else 0) 0)
  | VInt n => Some (Fin n 0)
  | VReal x => Some (float_num x)
  | _ => None
  end.

(** [k1 == k2] on the keys [_loadb] stores (each a new object, so a NaN key
    equals no other key); [str] and [bytes] never meet. *)
Definition key_eqb (k1 k2 : Value) : bool :=
  match key_num k1, key_num k2 with
  | Some a, Some b => num_eqb a b
  | None, None =>
    match k1, k2 with
    | VNone, VNone => true
    | VStr s, VStr t => bytes_eqb s t
    | VBytes s, VBytes t => bytes_eqb s t
    | _, _ => false
    end
  | _, _ => false
  end.

(** [obj[key] = value] on the items of a dict: an equal key already there
    keeps its place and its key object and takes the new value; a new key
    goes to the end. *)
Fixpoint dict_store (obj : dict) (key value : Value) : dict :=
  match obj with
  | [] => [(key, value)]
  | (k, v) :: rest =>
    if key_eqb k key then (k, value) :: rest
    else (k, v) :: dict_store rest key value
  end.

Definition dict_setitem (obj : dict) (key value : Value) : result dict :=
  if hashable key then Ok (dict_store obj key value) else Raise TypeError.

Fixpoint dict_get (obj : dict) (key : Value) : option Value :=
  match obj with
  | [] => None
  | (k, v) :: rest => if key_eqb k key then Some v else dict_get rest key
  end.

(** ** Constants of tinypacks.py *)
Definition TP_NONE : Z := 0x00.
Definition TP_BOOLEAN : Z := 0x20.
Definition TP_INTEGER : Z := 0x40.
Definition TP_REAL : Z := 0x60.
Definition TP_STRING : Z := 0x80.
Definition TP_BYTES : Z := 0xA0.
Definition TP_LIST : Z := 0xC0.
Definition TP_MAP : Z := 0xE0.

Definition TP_SMALL_SIZE_MASK : Z := 0x1F.
Definition TP_SMALL_SIZE_MAX : Z := 0x1E.
Definition TP_EXTENDED_SIZE_16 : Z := 0x1F.
Definition TP_EXTENDED_SIZE_32 : Z := 0xFFFF.

Definition TP_TYPE_MASK : Z := 0xE0.

(** ** [bit_len]

    [bin(n)] is the sign, "0b" and the binary digits of [abs(n)];
    [s.lstrip("-0b")] drops every leading character that is one of "-", "0",
    "b". *)
Fixpoint bin_digits (p : positive) (acc : string) : string :=
  match p with
  | xH => String "1" acc
  | xO q => bin_digits q (String "0" acc)
  | xI q => bin_digits q (String "1" acc)
  end.

Definition bin (n : Z) : string :=
  match n with
  | Z0 => "0b0"
  | Zpos p => "0b" ++ bin_digits p ""
  | Zneg p => "-0b" ++ bin_digits p ""
  end%string.

Fixpoint mem_char (c : ascii) (chars : string) : bool :=
  match chars with
  | EmptyString => false
  | String d rest => Ascii.eqb c d || mem_char c rest
  end.

Fixpoint lstrip (s chars : string) : string :=
  match s with
  | EmptyString => EmptyString
  | String c rest => if mem_char c chars then lstrip rest chars else s
  end.

Definition bit_len (n : Z) : Z :=
  let s := bin n in
  let s := lstrip s "-0b" in
  Z.of_nat (String.length s).

(** ** [dumpb] *)

(** [pack(">B%is" % blen, tag, obj)] and its two longer forms: the header
    fields, then the [blen] bytes of [obj]. *)
Definition pack_B_s (tag : Z) (obj : list byte) : result (list byte) :=
  h <- pack_unsigned 1 tag ;;
  Ok (h ++ obj).

Definition pack_BH_s (tag blen : Z) (obj : list byte) : result (list byte) :=
  h <- pack_unsigned 1 tag ;;
  l <- pack_unsigned 2 blen ;;
  Ok (h ++ l ++ obj).

Definition pack_BHL_s (tag ext blen : Z) (obj : list byte)
  : result (list byte) :=
  h <- pack_unsigned 1 tag ;;
  x <- pack_unsigned 2 ext ;;
  l <- pack_unsigned 4 blen ;;
  Ok (h ++ x ++ l ++ obj).

(** The three size tiers every block and container branch of [dumpb] ends
    with; [msg] is the message of the branch's [ValueError]. *)
Definition dump_block (tp : Z) (content : list byte) (msg : string)
  : result (list byte) :=
  let blen := len content in
  if blen <=? TP_SMALL_SIZE_MAX then pack_B_s (Z.lor tp blen) content
  else if blen <? 0xFFFF then
    pack_BH_s (Z.lor tp TP_EXTENDED_SIZE_16) blen content
  else if blen <? 0xFFFFFFFF then
    pack_BHL_s (Z.lor tp TP_EXTENDED_SIZE_16) TP_EXTENDED_SIZE_32 blen content
  else Raise (ValueError msg).

(** [pack(value)] of the list branch: [struct.pack] given [value] alone. *)
Definition struct_pack_1 (value : Value) : result (list byte) :=
  match value with
  | VStr s =>
    if forallb (fun b => b2z b <? 0x80) s then struct_pack_bare s
    else Raise UnicodeError
  | VBytes s => struct_pack_bare s
  | _ => Raise TypeError
  end.

(** [b"".join([f(x) for x in xs])]: the first exception, in order, wins. *)
Fixpoint join_map {A : Type} (f : A -> result (list byte)) (xs : list A)
  : result (list byte) :=
  match xs with
  | [] => Ok []
  | x :: rest =>
    a <- f x ;;
    r <- join_map f rest ;;
    Ok (a ++ r)
  end.

Definition dump_integer (obj : Z) : result (list byte) :=
  let bit_length := bit_len obj in
  if bit_length =? 0 then Ok [z2b TP_INTEGER]
  else if bit_length <=? 7 then
    h <- pack_unsigned 1 (Z.lor TP_INTEGER 1) ;;
    v <- pack_signed 1 obj ;; Ok (h ++ v)
  else if bit_length <=? 15 then
    h <- pack_unsigned 1 (Z.lor TP_INTEGER 2) ;;
    v <- pack_signed 2 obj ;; Ok (h ++ v)
  else if bit_length <=? 31 then
    h <- pack_unsigned 1 (Z.lor TP_INTEGER 4) ;;
    v <- pack_signed 4 obj ;; Ok (h ++ v)
  else if bit_length <=? 63 then
    h <- pack_unsigned 1 (Z.lor TP_INTEGER 8) ;;
    v <- pack_signed 8 obj ;; Ok (h ++ v)
  else Raise (ValueError "Integer number too big").

Definition dump_real (obj : Z) (use_double : bool) : result (list byte) :=
  if float_is_zero obj then Ok [z2b TP_REAL]
  else if use_double then
    h <- pack_unsigned 1 (Z.lor TP_REAL 8) ;;
    Ok (h ++ be_bytes 8 obj)
  else
    h <- pack_unsigned 1 (Z.lor TP_REAL 4) ;;
    f <- f64_to_f32 obj ;;
    Ok (h ++ be_bytes 4 f).

Fixpoint dumpb (obj : Value) (use_double : bool) : result (list byte) :=
  match obj with
  | VNone => Ok [z2b TP_NONE]
  | VBool b => if b then Ok [x21; x01] else Ok [z2b TP_BOOLEAN]
  | VInt n => dump_integer n
  | VReal x => dump_real x use_double
  | VStr s =>
    obj <- str_encode_utf8 s ;;
    dump_block TP_STRING obj "String too long"
  | VBytes s => dump_block TP_BYTES s "Bytearray too long"
  | VList items =>
    content <- join_map struct_pack_1 items ;;
    dump_block TP_LIST content "List too long"
  | VMap items =>
    content <-
      (fix elements (l : list (Value * Value)) : result (list byte) :=
         match l with
         | [] => Ok []
         | item :: rest =>
           k <- dumpb (fst item) false ;;
           v <- dumpb (snd item) false ;;
           r <- elements rest ;;
           Ok (k ++ v ++ r)
         end) items ;;
    dump_block TP_MAP content "Dict too long"
  end.

(** ** [_loadb] and [loadb] *)

(** [unpack(">BHL", bytes)]: the buffer argument is the builtin type
    [bytes], which is no bytes-like object, so the call raises [TypeError]
    whatever [ba] holds. *)
Definition unpack_BHL_of_type : result (Z * Z * Z) := Raise TypeError.

(** [unpack(content_raw)] of the list branch: [struct.unpack] given one
    argument where it takes a format and a buffer: [TypeError]. *)
Definition struct_unpack_1 (content_raw : list byte)
  : result (Value * list byte) := Raise TypeError.

(** The [while len(content_raw)] loop of the list branch.  [n] bounds the
    number of iterations of the model. *)
Fixpoint list_loop (n : nat) (obj : list Value) (content_raw : list byte)
  : result (list Value) :=
  match content_raw with
  | [] => Ok obj
  | _ :: _ =>
    match n with
    | O => Raise OutOfFuel
    | S n' =>
      r <- struct_unpack_1 content_raw ;;
      let '(item, content_raw) := r in
      list_loop n' (obj ++ [item]) content_raw
    end
  end.

(** The [while len(content_raw)] loop of the map branch; [rec] is [_loadb]. *)
Fixpoint map_loop (rec : list byte -> result (Value * list byte)) (n : nat)
  (obj : dict) (content_raw : list byte) : result dict :=
  match content_raw with
  | [] => Ok obj
  | _ :: _ =>
    match n with
    | O => Raise OutOfFuel
    | S n' =>
      r <- rec content_raw ;;
      let '(key, content_raw) := r in
      match content_raw with
      | _ :: _ =>
        r <- rec content_raw ;;
        let '(value, content_raw) := r in
        obj <- dict_setitem obj key value ;;
        map_loop rec n' obj content_raw
      | [] => Raise (ValueError "Dict key/value invalid")
      end
    end
  end.

(** The header of an element: the declared content length, the element
    length and the content slice. *)
Definition load_header (ba : list byte) (b0 : byte)
  : result (Z * Z * list byte) :=
  let content_length := Z.land (b2z b0) TP_SMALL_SIZE_MASK in
  let element_length := content_length + 1 in
  if negb (content_length =? TP_EXTENDED_SIZE_16) then
    Ok (content_length, element_length, py_slice 1 element_length ba)
  else
    t <- unpack_BH (py_slice 0 3 ba) ;;
    let content_length := snd t in
    let element_length := content_length + 3 in
    if negb (content_length =? TP_EXTENDED_SIZE_32) then
      Ok (content_length, element_length, py_slice 3 element_length ba)
    else
      t <- unpack_BHL_of_type ;;
      let content_length := snd t in
      let element_length := content_length + 7 in
      Ok (content_length, element_length, py_slice 7 element_length ba).

(** The [if ct == ... elif ...] chain: the object of an element of type
    [ct], declared length [content_length] and content [content_raw]. *)
Definition load_object (rec : list byte -> result (Value * list byte))
  (ct content_length : Z) (content_raw : list byte) : result Value :=
  if ct =? TP_NONE then Ok VNone
  else if ct =? TP_BOOLEAN then
    if negb (content_length =? 0) then
      match content_raw with
      | [] => Raise IndexError
      | c :: _ =>
        if negb (b2z c =? 0) then Ok (VBool true)
        else Raise (ValueError "Invalid True value")
      end
    else Ok (VBool false)
  else if ct =? TP_INTEGER then
    if content_length =? 0 then Ok (VInt 0)
    else if content_length =? 1 then
      n <- unpack_signed 1 content_raw ;; Ok (VInt n)
    else if content_length =? 2 then
      n <- unpack_signed 2 content_raw ;; Ok (VInt n)
    else if content_length =? 4 then
      n <- unpack_signed 4 content_raw ;; Ok (VInt n)
    else if content_length =? 8 then
      n <- unpack_signed 8 content_raw ;; Ok (VInt n)
    else Raise (ValueError "Integer number too big")
  else if ct =? TP_REAL then
    if content_length =? 0 then Ok (VReal 0)
    else if content_length =? 4 then
      raw <- unpack_exact 4 content_raw ;;
      Ok (VReal (f32_to_f64 (be_value raw)))
    else if content_length =? 8 then
      raw <- unpack_exact 8 content_raw ;;
      Ok (VReal (be_value raw))
    else Raise (ValueError "Real number too big")
  else if ct =? TP_STRING then
    s <- bytes_decode_utf8 content_raw ;; Ok (VStr s)
  else if ct =? TP_BYTES then Ok (VBytes content_raw)
  else if ct =? TP_LIST then
    obj <- list_loop (List.length content_raw) [] content_raw ;;
    Ok (VList obj)
  else if ct =? TP_MAP then
    obj <- map_loop rec (List.length content_raw) [] content_raw ;;
    Ok (VMap obj)
  else Raise UnboundLocalError.

(** The body of [_loadb], its recursive calls going through [rec]. *)
Definition loadb_body (rec : list byte -> result (Value * list byte))
  (ba : list byte) : result (Value * list byte) :=
  match ba with
  | [] => Raise (ValueError "Cannot unpack an empty pack")
  | b0 :: _ =>
    let ct := Z.land (b2z b0) TP_TYPE_MASK in
    hdr <- load_header ba b0 ;;
    let '(content_length, element_length, content_raw) := hdr in
    obj <- load_object rec ct content_length content_raw ;;
    Ok (obj, py_slice_from element_length ba)
  end.

Fixpoint _loadb_fuel (fuel : nat) (ba : list byte)
  : result (Value * list byte) :=
  match fuel with
  | O => Raise OutOfFuel
  | S fuel' => loadb_body (_loadb_fuel fuel') ba
  end.

(** Every recursive call is on a content slice, which is shorter than the
    buffer, so [len(ba) + 1] levels are enough (see [_loadb_fuel_enough]). *)
Definition _loadb (ba : list byte) : result (Value * list byte) :=
  _loadb_fuel (S (List.length ba)) ba.

Definition loadb (ba : list byte) : result Value :=
  r <- _loadb ba ;; Ok (fst r).

(** * Reference definitions, following the words of the specification *)

(** The minimal-width integer encoder of the specification: 0 is a bare
    header; otherwise the least of 1, 2, 4, 8 bytes whose signed
    two's-complement range holds the value; a range error outside the 64-bit
    signed range. *)
Definition spec_encode_integer (n : Z) : result (list byte) :=
  if n =? 0 then Ok [x40]
  else if (-128 <=? n) && (n <=? 127) then Ok (x41 :: be_bytes 1 n)
  else if (-32768 <=? n) && (n <=? 32767) then Ok (x42 :: be_bytes 2 n)
  else if (- 2 ^ 31 <=? n) && (n <=? 2 ^ 31 - 1) then
    Ok (x44 :: be_bytes 4 n)
  else if (- 2 ^ 63 <=? n) && (n <=? 2 ^ 63 - 1) then
    Ok (x48 :: be_bytes 8 n)
  else Raise (ValueError "Integer number too big").

(** The header of the wire format (sections 4.1 and 6 of the
    specification): the type bits of an element, and its frame, which is
    the declared content length, the content bytes that are in the buffer
    (all of them unless the buffer is too short) and the bytes after the
    element.  The frame covers the direct and the extended-16 tier. *)
Definition elem_type (ba : list byte) : option Z :=
  match ba with
  | [] => None
  | b0 :: _ => Some (Z.land (b2z b0) 0xE0)
  end.

Definition frame (ba : list byte) : option (Z * list byte * list byte) :=
  match ba with
  | [] => None
  | b0 :: t =>
    let size := Z.land (b2z b0) 0x1F in
    if size <? 31 then
      Some (size, firstn (Z.to_nat size) t, skipn (Z.to_nat size) t)
    else
      match t with
      | h :: l :: rest =>
        let n := b2z h * 256 + b2z l in
        if n <? 0xFFFF then
          Some (n, firstn (Z.to_nat n) rest, skipn (Z.to_nat n) rest)
        else None
      | _ => None
      end
  end.

(** The encoded elements a content slice holds, one after the other, each
    decoded by [_loadb]; [n] bounds their number. *)
Fixpoint elements (n : nat) (content_raw : list byte) : result (list Value) :=
  match content_raw with
  | [] => Ok []
  | _ :: _ =>
    match n with
    | O => Raise OutOfFuel
    | S n' =>
      r <- _loadb content_raw ;;
      vs <- elements n' (snd r) ;;
      Ok (fst r :: vs)
    end
  end.

(** The (key, value) pairs of a sequence of elements, in parse order; a
    last element without a partner is left out. *)
Fixpoint pairs (vs : list Value) : list (Value * Value) :=
  match vs with
  | k :: v :: rest => (k, v) :: pairs rest
  | _ => []
  end.

(** Inserting the pairs in order, as [obj[key] = value] does. *)
Fixpoint store_pairs (obj : dict) (ps : list (Value * Value)) : result dict :=
  match ps with
  | [] => Ok obj
  | (k, v) :: rest =>
    obj' <- dict_setitem obj k v ;;
    store_pairs obj' rest
  end.

(** Last-write-wins: the value of the last pair whose key equals [k]. *)
Fixpoint last_value (ps : list (Value * Value)) (k : Value) : option Value :=
  match ps with
  | [] => None
  | (k1, v1) :: rest =>
    match last_value rest k with
    | Some v => Some v
    | None => if key_eqb k1 k then Some v1 else None
    end
  end.

(** The values the round trip is proved for.  A real is kept when it is
    +0.0, or is not a zero and is packed in double precision or is a
    single-precision number; inside a map [dumpb] always packs in single
    precision. *)
Definition single_exact (x : Z) : bool :=
  match f64_to_f32 x with
  | Ok y => f32_to_f64 y =? x
  | Raise _ => false
  end.

Definition real_kept (use_double : bool) (x : Z) : bool :=
  (x =? 0) ||
  ((0 <? x) && (x <? 2 ^ 64) && negb (float_is_zero x) &&
   (use_double || single_exact x)).

(** The content of a map: the encodings of its keys and values, in order. *)
Definition map_content (items : list (Value * Value)) : result (list byte) :=
  join_map (fun item =>
              k <- dumpb (fst item) false ;;
              v <- dumpb (snd item) false ;;
              Ok (k ++ v)) items.

(** No two keys of a dict are equal. *)
Fixpoint keys_distinct (ks : list Value) : bool :=
  match ks with
  | [] => true
  | k :: rest =>
    negb (existsb (fun k' => key_eqb k k') rest) && keys_distinct rest
  end.

(** None, booleans, integers of magnitude below 2^63, kept reals, strings
    and bytes below 65535 bytes, the empty list, and maps of such values
    with hashable, pairwise unequal keys and a content below 65535 bytes. *)
Fixpoint supported (use_double : bool) (v : Value) : bool :=
  match v with
  | VNone | VBool _ => true
  | VInt n => Z.abs n <? 2 ^ 63
  | VReal x => real_kept use_double x
  | VStr s => valid_utf8 s && (len s <? 0xFFFF)
  | VBytes s => len s <? 0xFFFF
  | VList items => match items with [] => true | _ :: _ => false end
  | VMap items =>
    (fix all (l : list (Value * Value)) : bool :=
       match l with
       | [] => true
       | item :: rest =>
         hashable (fst item) && supported false (fst item)
         && supported false (snd item) && all rest
       end) items
    && keys_distinct (map fst items)
    && match map_content items with
       | Ok c => len c <? 0xFFFF
       | Raise _ => false
       end
  end.

(** A value whose encoding is read back, whatever follows it. *)
Definition reads_back (v : Value) : Prop :=
  exists b, dumpb v false = Ok b /\ b <> [] /\
            forall tail, _loadb (b ++ tail) = Ok (v, tail).

(** The type constant [dumpb] gives each kind of value. *)
Definition type_code (v : Value) : Z :=
  match v with
  | VNone => TP_NONE
  | VBool _ => TP_BOOLEAN
  | VInt _ => TP_INTEGER
  | VReal _ => TP_REAL
  | VStr _ => TP_STRING
  | VBytes _ => TP_BYTES
  | VList _ => TP_LIST
  | VMap _ => TP_MAP
  end.

(** What every value built by [_loadb] satisfies, at any depth: an integer
    is in the 64-bit signed range, a list is empty, and a map has hashable,
    pairwise unequal keys. *)
Fixpoint decoded_ok (v : Value) : bool :=
  match v with
  | VInt n => (- 2 ^ 63 <=? n) && (n <? 2 ^ 63)
  | VList items => match items with [] => true | _ :: _ => false end
  | VMap items =>
    forallb hashable (map fst items)
    && keys_distinct (map fst items)
    && (fix all (l : list (Value * Value)) : bool :=
          match l with
          | [] => true
          | item :: rest =>
            decoded_ok (fst item) && decoded_ok (snd item) && all rest
          end) items
  | _ => true
  end.

(** * Properties *)

(** ** Bytes and big-endian fields *)

Lemma b2z_range (b : byte) : 0 <= b2z b < 256.
Proof.
  unfold b2z. pose proof (Byte.to_N_bounded b). lia.
Qed.

Lemma z2b_b2z (b : byte) : z2b (b2z b) = b.
Proof.
  unfold z2b, b2z. rewrite N2Z.id, Byte.of_to_N. reflexivity.
Qed.

Lemma b2z_z2b (z : Z) : 0 <= z < 256 -> b2z (z2b z) = z.
Proof.
  intros Hz. unfold z2b, b2z.
  destruct (Byte.of_N (Z.to_N z)) as [b|] eqn:E.
  - apply Byte.to_of_N in E. rewrite E. lia.
  - apply Byte.of_N_None_iff in E. lia.
Qed.

Lemma len_nonneg {A : Type} (l : list A) : 0 <= len l.
Proof. unfold len. lia. Qed.

Lemma be_bytes_length (n : nat) (z : Z) : List.length (be_bytes n z) = n.
Proof. induction n; simpl; congruence. Qed.

Lemma be_value_app (l1 l2 : list byte) :
  be_value (l1 ++ l2) = be_value l1 * 256 ^ len l2 + be_value l2.
Proof.
  unfold be_value.
  assert (G : forall l a, fold_left (fun acc b => acc * 256 + b2z b) l a
              = a * 256 ^ len l + fold_left (fun acc b => acc * 256 + b2z b) l 0).
  { induction l as [|b l IH]; intros a; cbn [fold_left].
    - unfold len; simpl. lia.
    - rewrite IH. rewrite (IH (0 * 256 + b2z b)).
      replace (len (b :: l)) with (Z.succ (len l))
        by (unfold len; cbn [List.length]; lia).
      rewrite Z.pow_succ_r by apply len_nonneg. ring. }
  rewrite fold_left_app. rewrite G. reflexivity.
Qed.

Lemma be_value_nonneg (l : list byte) : 0 <= be_value l.
Proof.
  induction l as [|b l IH] using rev_ind.
  - unfold be_value; simpl; lia.
  - rewrite be_value_app. unfold be_value at 2; simpl.
    pose proof (b2z_range b). unfold len; simpl. lia.
Qed.

Lemma be_value_be_bytes (n : nat) (z : Z) :
  be_value (be_bytes n z) = z mod 256 ^ Z.of_nat n.
Proof.
  induction n as [|n IH].
  - simpl. rewrite Z.mod_1_r. reflexivity.
  - change (be_bytes (S n) z)
      with ([z2b ((z / 256 ^ Z.of_nat n) mod 256)] ++ be_bytes n z).
    rewrite be_value_app, IH. unfold len. rewrite be_bytes_length.
    unfold be_value at 1; simpl fold_left.
    rewrite b2z_z2b by (apply Z.mod_pos_bound; lia).
    rewrite Nat2Z.inj_succ, Z.pow_succ_r by lia.
    assert (Hp : 0 < 256 ^ Z.of_nat n) by (apply Z.pow_pos_nonneg; lia).
    rewrite (Z.mul_comm 256 (256 ^ Z.of_nat n)).
    rewrite Z.rem_mul_r by lia. lia.
Qed.

(** ** [_loadb] terminates: the fuel of the model is enough *)

Lemma py_slice_length_le (lo hi : Z) (ba : list byte) :
  (List.length (py_slice lo hi ba) <= List.length ba - Z.to_nat lo)%nat.
Proof.
  unfold py_slice. rewrite length_firstn, length_skipn. lia.
Qed.

Lemma load_header_bounds (b0 : byte) (t : list byte) cl el cr :
  load_header (b0 :: t) b0 = Ok (cl, el, cr) ->
  0 <= cl /\ 1 <= el /\ (List.length cr <= List.length t)%nat.
Proof.
  unfold load_header.
  assert (Hl : 0 <= Z.land (b2z b0) TP_SMALL_SIZE_MASK).
  { apply Z.land_nonneg. left. apply b2z_range. }
  destruct (negb (Z.land (b2z b0) TP_SMALL_SIZE_MASK =? TP_EXTENDED_SIZE_16)).
  - intros H; inversion H; subst; clear H.
    pose proof (py_slice_length_le 1 (Z.land (b2z b0) TP_SMALL_SIZE_MASK + 1)
                  (b0 :: t)) as Hs.
    cbn [List.length] in Hs. change (Z.to_nat 1) with 1%nat in Hs. lia.
  - unfold unpack_BH, unpack_exact.
    destruct (Nat.eqb _ 3); cbn [bind]; [|discriminate].
    cbn [snd].
    set (c := be_value (skipn 1 (py_slice 0 3 (b0 :: t)))).
    assert (Hc : 0 <= c) by apply be_value_nonneg.
    destruct (negb (c =? TP_EXTENDED_SIZE_32)).
    + intros H; inversion H; subst; clear H.
      pose proof (py_slice_length_le 3 (c + 3) (b0 :: t)) as Hs.
      cbn [List.length] in Hs. change (Z.to_nat 3) with 3%nat in Hs. lia.
    + unfold unpack_BHL_of_type. cbn [bind]. discriminate.
Qed.

(** Whatever [rec] is, the tail an element leaves is shorter than the
    buffer. *)
Lemma loadb_body_shrinks rec (ba : list byte) v rest :
  loadb_body rec ba = Ok (v, rest) ->
  (List.length rest < List.length ba)%nat.
Proof.
  unfold loadb_body. destruct ba as [|b0 t]; [discriminate|].
  destruct (load_header (b0 :: t) b0) as [[[cl el] cr]|e] eqn:Hh;
    cbn [bind]; [|discriminate].
  apply load_header_bounds in Hh. destruct Hh as (_ & Hel & _).
  destruct (load_object rec _ cl cr); cbn [bind]; [|discriminate].
  intros H; inversion H; subst; clear H.
  unfold py_slice_from. rewrite length_skipn. cbn [List.length]. lia.
Qed.

Lemma dict_setitem_fuel obj key value :
  dict_setitem obj key value <> Raise OutOfFuel.
Proof. unfold dict_setitem. destruct (hashable key); discriminate. Qed.

Section MapLoop.
Variables rec1 rec2 : list byte -> result (Value * list byte).

(** Two decoders that agree on the slices of [content_raw], and leave
    shorter tails, run the same loop, with any bounds that cover the
    length of the slice. *)
Lemma map_loop_agree :
  forall (n1 n2 : nat) (obj : dict) (content_raw : list byte),
    (forall x, (List.length x <= List.length content_raw)%nat ->
               rec1 x = rec2 x) ->
    (forall x v r, rec1 x = Ok (v, r) ->
                   (List.length r < List.length x)%nat) ->
    (List.length content_raw <= n1)%nat ->
    (List.length content_raw <= n2)%nat ->
    map_loop rec1 n1 obj content_raw = map_loop rec2 n2 obj content_raw.
Proof.
  induction n1 as [|n1 IH]; intros n2 obj raw Hag Hsh H1 H2.
  - destruct raw; [destruct n2; reflexivity | cbn [List.length] in H1; lia].
  - destruct raw as [|c raw']; [destruct n2; reflexivity|].
    destruct n2 as [|n2]; [cbn [List.length] in H2; lia|].
    cbn [map_loop].
    rewrite <- (Hag (c :: raw')) by lia.
    destruct (rec1 (c :: raw')) as [[key r1]|e] eqn:E1; cbn [bind]; auto.
    pose proof (Hsh _ _ _ E1) as L1.
    destruct r1 as [|c1 r1']; auto.
    rewrite <- (Hag (c1 :: r1')) by lia.
    destruct (rec1 (c1 :: r1')) as [[value r2]|e] eqn:E2; cbn [bind]; auto.
    pose proof (Hsh _ _ _ E2) as L2.
    destruct (dict_setitem obj key value); cbn [bind]; auto.
    apply IH; try lia; auto.
    intros x Hx. apply Hag. lia.
Qed.

Lemma map_loop_fuel :
  forall (n : nat) (obj : dict) (content_raw : list byte),
    (forall x, (List.length x <= List.length content_raw)%nat ->
               rec1 x <> Raise OutOfFuel) ->
    (forall x v r, rec1 x = Ok (v, r) ->
                   (List.length r < List.length x)%nat) ->
    (List.length content_raw <= n)%nat ->
    map_loop rec1 n obj content_raw <> Raise OutOfFuel.
Proof.
  induction n as [|n IH]; intros obj raw Hf Hsh Hn.
  - destruct raw; [discriminate | cbn [List.length] in Hn; lia].
  - destruct raw as [|c raw']; [discriminate|].
    cbn [map_loop].
    pose proof (Hf (c :: raw') (le_n _)) as F1.
    destruct (rec1 (c :: raw')) as [[key r1]|e] eqn:E1; cbn [bind];
      [|congruence].
    pose proof (Hsh _ _ _ E1) as L1.
    destruct r1 as [|c1 r1']; [discriminate|].
    assert (F2 : rec1 (c1 :: r1') <> Raise OutOfFuel) by (apply Hf; lia).
    destruct (rec1 (c1 :: r1')) as [[value r2]|e] eqn:E2; cbn [bind];
      [|congruence].
    pose proof (Hsh _ _ _ E2) as L2.
    pose proof (dict_setitem_fuel obj key value) as F3.
    destruct (dict_setitem obj key value); cbn [bind]; [|congruence].
    apply IH; try lia; auto.
    intros x Hx. apply Hf. lia.
Qed.
End MapLoop.

(** The loop of the list branch stops in its first iteration. *)
Lemma list_loop_length (obj : list Value) (content_raw : list byte) :
  list_loop (List.length content_raw) obj content_raw =
  match content_raw with
  | [] => Ok obj
  | _ :: _ => Raise TypeError
  end.
Proof. destruct content_raw; reflexivity. Qed.

Lemma load_object_agree rec1 rec2 ct cl (cr : list byte) :
  (forall x, (List.length x <= List.length cr)%nat -> rec1 x = rec2 x) ->
  (forall x v r, rec1 x = Ok (v, r) -> (List.length r < List.length x)%nat) ->
  load_object rec1 ct cl cr = load_object rec2 ct cl cr.
Proof.
  intros Hag Hsh. unfold load_object.
  rewrite (map_loop_agree rec1 rec2 (List.length cr) (List.length cr) [] cr)
    by auto.
  reflexivity.
Qed.

Lemma load_object_fuel rec ct cl (cr : list byte) :
  (forall x, (List.length x <= List.length cr)%nat ->
             rec x <> Raise OutOfFuel) ->
  (forall x v r, rec x = Ok (v, r) -> (List.length r < List.length x)%nat) ->
  load_object rec ct cl cr <> Raise OutOfFuel.
Proof.
  intros Hf Hsh. unfold load_object.
  pose proof (map_loop_fuel rec (List.length cr) [] cr Hf Hsh (le_n _)) as Hm.
  rewrite list_loop_length.
  unfold unpack_signed, unpack_exact, bytes_decode_utf8.
  repeat match goal with
         | |- context [if ?c then _ else _] => destruct c
         | |- context [match ?l with [] => _ | _ :: _ => _ end] => destruct l
         | |- context [map_loop ?r ?n ?o ?c] =>
             destruct (map_loop r n o c)
         end; cbn [bind]; congruence.
Qed.

Lemma loadb_body_agree rec1 rec2 (ba : list byte) :
  (forall x, (List.length x < List.length ba)%nat -> rec1 x = rec2 x) ->
  (forall x v r, rec1 x = Ok (v, r) -> (List.length r < List.length x)%nat) ->
  loadb_body rec1 ba = loadb_body rec2 ba.
Proof.
  intros Hag Hsh. unfold loadb_body. destruct ba as [|b0 t]; [reflexivity|].
  destruct (load_header (b0 :: t) b0) as [[[cl el] cr]|e] eqn:Hh;
    cbn [bind]; [|reflexivity].
  apply load_header_bounds in Hh. destruct Hh as (_ & _ & Hcr).
  rewrite (load_object_agree rec1 rec2); auto.
  intros x Hx. apply Hag. cbn [List.length]. lia.
Qed.

Lemma loadb_body_fuel rec (ba : list byte) :
  (forall x, (List.length x < List.length ba)%nat ->
             rec x <> Raise OutOfFuel) ->
  (forall x v r, rec x = Ok (v, r) -> (List.length r < List.length x)%nat) ->
  loadb_body rec ba <> Raise OutOfFuel.
Proof.
  intros Hf Hsh. unfold loadb_body. destruct ba as [|b0 t]; [discriminate|].
  destruct (load_header (b0 :: t) b0) as [[[cl el] cr]|e] eqn:Hh; cbn [bind].
  - apply load_header_bounds in Hh. destruct Hh as (_ & _ & Hcr).
    pose proof (load_object_fuel rec
                  (Z.land (b2z b0) TP_TYPE_MASK) cl cr) as Ho.
    destruct (load_object rec _ cl cr); cbn [bind]; [discriminate|].
    intros E. apply Ho; auto; [|congruence].
    intros x Hx. apply Hf. cbn [List.length]. lia.
  - revert Hh. unfold load_header, unpack_BH, unpack_exact, unpack_BHL_of_type.
    repeat match goal with
           | |- context [if ?c then _ else _] => destruct c; cbn [bind]
           end; congruence.
Qed.

Lemma _loadb_fuel_shrinks (fuel : nat) (ba : list byte) v rest :
  _loadb_fuel fuel ba = Ok (v, rest) ->
  (List.length rest < List.length ba)%nat.
Proof.
  destruct fuel; cbn [_loadb_fuel]; [discriminate|].
  apply loadb_body_shrinks.
Qed.

Lemma _loadb_fuel_stable :
  forall (f1 f2 : nat) (ba : list byte),
    (List.length ba < f1)%nat -> (List.length ba < f2)%nat ->
    _loadb_fuel f1 ba = _loadb_fuel f2 ba /\
    _loadb_fuel f1 ba <> Raise OutOfFuel.
Proof.
  induction f1 as [|f1 IH]; intros f2 ba H1 H2; [lia|].
  destruct f2 as [|f2]; [lia|]. cbn [_loadb_fuel]. split.
  - apply loadb_body_agree.
    + intros x Hx. apply IH; lia.
    + apply _loadb_fuel_shrinks.
  - apply loadb_body_fuel.
    + intros x Hx. apply (IH f1 x); lia.
    + apply _loadb_fuel_shrinks.
Qed.

(** Any fuel above the length of the buffer gives the result of [_loadb],
    and that result is never the model's [OutOfFuel]: [_loadb] returns a
    value or raises an exception of the source on every buffer. *)
Theorem _loadb_fuel_enough (fuel : nat) (ba : list byte) :
  (List.length ba < fuel)%nat -> _loadb_fuel fuel ba = _loadb ba.
Proof.
  intros H. unfold _loadb. apply _loadb_fuel_stable; lia.
Qed.

Theorem _loadb_total (ba : list byte) : _loadb ba <> Raise OutOfFuel.
Proof.
  unfold _loadb. apply (_loadb_fuel_stable _ (S (List.length ba))); lia.
Qed.

Lemma _loadb_shrinks (ba : list byte) v rest :
  _loadb ba = Ok (v, rest) -> (List.length rest < List.length ba)%nat.
Proof. apply _loadb_fuel_shrinks. Qed.

(** The equation of the source: [_loadb] is its body, calling itself. *)
Theorem _loadb_unfold (ba : list byte) : _loadb ba = loadb_body _loadb ba.
Proof.
  unfold _loadb at 1. cbn [_loadb_fuel].
  apply loadb_body_agree.
  - intros x Hx. apply _loadb_fuel_enough. lia.
  - apply _loadb_fuel_shrinks.
Qed.

(** ** [bit_len] is the bit length of the magnitude *)

Lemma bin_digits_shape (p : positive) :
  forall acc, exists t,
    bin_digits p acc = String "1" t /\
    String.length (bin_digits p acc)
    = (Pos.size_nat p + String.length acc)%nat.
Proof.
  induction p as [p IH|p IH|]; intros acc; cbn [bin_digits Pos.size_nat].
  - destruct (IH (String "1" acc)) as (t & E & L). exists t. split; auto.
    rewrite L. cbn [String.length]. lia.
  - destruct (IH (String "0" acc)) as (t & E & L). exists t. split; auto.
    rewrite L. cbn [String.length]. lia.
  - exists acc. split; reflexivity.
Qed.

Lemma size_nat_bounds (p : positive) :
  2 ^ (Z.of_nat (Pos.size_nat p) - 1) <= Z.pos p
  < 2 ^ Z.of_nat (Pos.size_nat p).
Proof.
  induction p as [p IH|p IH|]; cbn [Pos.size_nat].
  - rewrite Nat2Z.inj_succ.
    replace (Z.succ (Z.of_nat (Pos.size_nat p)) - 1)
      with (Z.succ (Z.of_nat (Pos.size_nat p) - 1)) by lia.
    assert (0 < Z.of_nat (Pos.size_nat p)) by (destruct p; cbn; lia).
    rewrite !Z.pow_succ_r by lia. lia.
  - rewrite Nat2Z.inj_succ.
    replace (Z.succ (Z.of_nat (Pos.size_nat p)) - 1)
      with (Z.succ (Z.of_nat (Pos.size_nat p) - 1)) by lia.
    assert (0 < Z.of_nat (Pos.size_nat p)) by (destruct p; cbn; lia).
    rewrite !Z.pow_succ_r by lia. lia.
  - cbn. lia.
Qed.

Lemma bit_len_pos (p : positive) :
  bit_len (Z.pos p) = Z.of_nat (Pos.size_nat p) /\
  bit_len (Z.neg p) = Z.of_nat (Pos.size_nat p).
Proof.
  unfold bit_len, bin.
  destruct (bin_digits_shape p "") as (t & E & L).
  rewrite E in *. cbn [append lstrip mem_char Ascii.eqb Bool.eqb orb].
  rewrite L. cbn [String.length]. split; f_equal; lia.
Qed.

Lemma bit_len_le (n k : Z) :
  0 <= k -> (bit_len n <=? k) = (Z.abs n <? 2 ^ k).
Proof.
  intros Hk. assert (Hp : 0 < 2 ^ k) by (apply Z.pow_pos_nonneg; lia).
  destruct n as [|p|p].
  - change (bit_len 0) with 0. cbn [Z.abs].
    destruct (Z.leb_spec 0 k), (Z.ltb_spec 0 (2 ^ k)); lia || reflexivity.
  - rewrite (proj1 (bit_len_pos p)). cbn [Z.abs].
    pose proof (size_nat_bounds p) as [Lo Hi].
    destruct (Z.leb_spec (Z.of_nat (Pos.size_nat p)) k) as [H|H],
             (Z.ltb_spec (Z.pos p) (2 ^ k)) as [H'|H']; try reflexivity.
    + assert (2 ^ Z.of_nat (Pos.size_nat p) <= 2 ^ k)
        by (apply Z.pow_le_mono_r; lia). lia.
    + assert (2 ^ k <= 2 ^ (Z.of_nat (Pos.size_nat p) - 1))
        by (apply Z.pow_le_mono_r; lia). lia.
  - rewrite (proj2 (bit_len_pos p)). cbn [Z.abs].
    pose proof (size_nat_bounds p) as [Lo Hi].
    destruct (Z.leb_spec (Z.of_nat (Pos.size_nat p)) k) as [H|H],
             (Z.ltb_spec (Z.pos p) (2 ^ k)) as [H'|H']; try reflexivity.
    + assert (2 ^ Z.of_nat (Pos.size_nat p) <= 2 ^ k)
        by (apply Z.pow_le_mono_r; lia). lia.
    + assert (2 ^ k <= 2 ^ (Z.of_nat (Pos.size_nat p) - 1))
        by (apply Z.pow_le_mono_r; lia). lia.
Qed.

Lemma bit_len_zero (n : Z) : (bit_len n =? 0) = (n =? 0).
Proof.
  destruct n as [|p|p]; [reflexivity| |].
  - rewrite (proj1 (bit_len_pos p)). destruct p; reflexivity.
  - rewrite (proj2 (bit_len_pos p)). destruct p; reflexivity.
Qed.

(** What [dump_integer] returns, by the magnitude of the integer. *)
Lemma dump_integer_by_magnitude (n : Z) :
  dump_integer n =
  if n =? 0 then Ok [x40]
  else if Z.abs n <? 2 ^ 7 then Ok (x41 :: be_bytes 1 n)
  else if Z.abs n <? 2 ^ 15 then Ok (x42 :: be_bytes 2 n)
  else if Z.abs n <? 2 ^ 31 then Ok (x44 :: be_bytes 4 n)
  else if Z.abs n <? 2 ^ 63 then Ok (x48 :: be_bytes 8 n)
  else Raise (ValueError "Integer number too big").
Proof.
  unfold dump_integer. rewrite bit_len_zero.
  rewrite !bit_len_le by lia.
  destruct (n =? 0); [reflexivity|].
  unfold pack_signed, pack_unsigned.
  repeat match goal with
  | |- context [Z.abs n <? ?k] =>
      destruct (Z.ltb_spec (Z.abs n) k);
      [ match goal with
        | |- context [(?lo <=? n) && (n <? ?hi)] =>
            replace ((lo <=? n) && (n <? hi)) with true
              by (symmetry; apply andb_true_intro; split;
                  [apply Z.leb_le | apply Z.ltb_lt];
                  cbn in *; lia)
        end; reflexivity | ]
  end.
  reflexivity.
Qed.

(** ** Integers: the width [dumpb] chooses *)

(** C4, as stated, fails: [dumpb] is not the minimal-width encoder at the
    negative end of each range.  It sends -128 to two bytes where one is
    enough, and rejects -2^63, which fits eight bytes. *)
Lemma dumpb_integer_not_minimal :
  dumpb (VInt (-128)) false = Ok [x42; xff; x80] /\
  spec_encode_integer (-128) = Ok [x41; x80] /\
  dumpb (VInt (- 2 ^ 63)) false = Raise (ValueError "Integer number too big") /\
  spec_encode_integer (- 2 ^ 63)
  = Ok [x48; x80; x00; x00; x00; x00; x00; x00; x00].
Proof. repeat split; vm_compute; reflexivity. Qed.

(** C4, amended: [dumpb] on an integer chooses the width by the bit length
    of the magnitude.  0 is a bare header; one byte covers -127..127, two
    bytes -32767..32767, four bytes -(2^31-1)..2^31-1, eight bytes
    -(2^63-1)..2^63-1, big-endian two's complement; the range error is raised
    exactly when the magnitude is 2^63 or more.  So [dumpb] is the
    minimal-width encoder of the specification on every integer but -128,
    -32768, -2^31 (one width larger) and -2^63 (range error). *)
Theorem dumpb_integer_widths (n : Z) (use_double : bool) :
  dumpb (VInt n) use_double =
    (if n =? 0 then Ok [x40]
     else if Z.abs n <=? 127 then Ok (x41 :: be_bytes 1 n)
     else if Z.abs n <=? 32767 then Ok (x42 :: be_bytes 2 n)
     else if Z.abs n <=? 2 ^ 31 - 1 then Ok (x44 :: be_bytes 4 n)
     else if Z.abs n <=? 2 ^ 63 - 1 then Ok (x48 :: be_bytes 8 n)
     else Raise (ValueError "Integer number too big"))
  /\ (n <> -128 -> n <> -32768 -> n <> - 2 ^ 31 -> n <> - 2 ^ 63 ->
      dumpb (VInt n) use_double = spec_encode_integer n).
Proof.
  cbn [dumpb]. rewrite dump_integer_by_magnitude.
  unfold spec_encode_integer.
  destruct (n =? 0); [split; reflexivity|].
  change (2 ^ 7) with 128. change (2 ^ 15) with 32768.
  change (2 ^ 31) with 2147483648.
  change (2 ^ 63) with 9223372036854775808.
  change (2147483648 - 1) with 2147483647.
  change (9223372036854775808 - 1) with 9223372036854775807.
  change (- (2147483648)) with (-2147483648).
  change (- (9223372036854775808)) with (-9223372036854775808).
  repeat match goal with
  | |- context [Z.abs n <? ?k] =>
      destruct (Z.ltb_spec (Z.abs n) k); try (exfalso; lia)
  | |- context [Z.abs n <=? ?k] =>
      destruct (Z.leb_spec (Z.abs n) k); try (exfalso; lia)
  | |- context [?a <=? n] =>
      destruct (Z.leb_spec a n); try (exfalso; lia)
  | |- context [n <=? ?a] =>
      destruct (Z.leb_spec n a); try (exfalso; lia)
  end; cbn [andb]; split; intros; try reflexivity; exfalso; lia.
Qed.

(** ** The header *)

Lemma size_field_range (b0 : byte) :
  0 <= Z.land (b2z b0) TP_SMALL_SIZE_MASK <= 31.
Proof.
  pose proof (b2z_range b0) as Hb. split.
  - apply Z.land_nonneg. left. lia.
  - change TP_SMALL_SIZE_MASK with (Z.ones 5).
    rewrite Z.land_ones by lia.
    pose proof (Z.mod_pos_bound (b2z b0) (2 ^ 5)). lia.
Qed.

Lemma be_value_2 (h l : byte) : be_value [h; l] = b2z h * 256 + b2z l.
Proof. unfold be_value. cbn [fold_left]. lia. Qed.

(** [load_header] computes the frame of the wire format, in the two tiers
    the frame covers. *)
Lemma load_header_frame (b0 : byte) (t : list byte) cl cr tail :
  frame (b0 :: t) = Some (cl, cr, tail) ->
  exists el,
    load_header (b0 :: t) b0 = Ok (cl, el, cr) /\
    py_slice_from el (b0 :: t) = tail /\ 0 <= cl.
Proof.
  unfold frame, load_header.
  pose proof (size_field_range b0) as Hs.
  unfold TP_SMALL_SIZE_MASK, TP_EXTENDED_SIZE_16 in *.
  set (size := Z.land (b2z b0) 31) in *.
  destruct (Z.ltb_spec size 31) as [Hlt|Hge].
  - intros H; inversion H; subst cl cr tail; clear H.
    replace (size =? 31) with false by (symmetry; apply Z.eqb_neq; lia).
    cbn [negb]. exists (size + 1). repeat split; try lia.
    + unfold py_slice. replace (size + 1 - 1) with size by lia. reflexivity.
    + unfold py_slice_from. rewrite Z2Nat.inj_add by lia. 
      rewrite Nat.add_comm. reflexivity.
  - replace (size =? 31) with true by (symmetry; apply Z.eqb_eq; lia).
    cbn [negb].
    destruct t as [|h [|l rest]]; try discriminate.
    change (py_slice 0 3 (b0 :: h :: l :: rest)) with [b0; h; l].
    unfold unpack_BH, unpack_exact.
    cbn [skipn firstn List.length Nat.eqb bind snd].
    rewrite be_value_2. unfold TP_EXTENDED_SIZE_32, py_slice.
    change (Z.to_nat 3) with 3%nat. cbn [skipn].
    pose proof (b2z_range h). pose proof (b2z_range l).
    set (n := b2z h * 256 + b2z l) in *.
    destruct (Z.ltb_spec n 65535) as [Hn|Hn]; [|discriminate].
    intros E; inversion E; subst cl cr tail; clear E.
    replace (n =? 65535) with false by (symmetry; apply Z.eqb_neq; lia).
    cbn [negb]. exists (n + 3). repeat split; try lia.
    + replace (n + 3 - 3) with n by lia. reflexivity.
    + unfold py_slice_from. rewrite Z2Nat.inj_add by lia.
      rewrite Nat.add_comm. reflexivity.
Qed.

(** An element with a frame is decoded by [load_object] on its content. *)
Lemma _loadb_frame (ba : list byte) ct cl cr tail :
  elem_type ba = Some ct ->
  frame ba = Some (cl, cr, tail) ->
  _loadb ba = (obj <- load_object _loadb ct cl cr ;; Ok (obj, tail)).
Proof.
  intros Ht Hf. destruct ba as [|b0 t]; [discriminate|].
  cbn [elem_type] in Ht. inversion Ht; subst; clear Ht.
  destruct (load_header_frame _ _ _ _ _ Hf) as (el & Hh & Htail & _).
  rewrite _loadb_unfold. unfold loadb_body. rewrite Hh. cbn [bind].
  rewrite Htail. reflexivity.
Qed.

(** ** Empty strings, bytes, lists and maps *)

(** C10: the empty string, bytes, list and map each encode to the bare type
    header (0x80, 0xA0, 0xC0, 0xE0), and that byte decodes to the empty
    value again. *)
Theorem empty_values_one_byte (use_double : bool) :
  (dumpb (VStr []) use_double = Ok [x80] /\ loadb [x80] = Ok (VStr [])) /\
  (dumpb (VBytes []) use_double = Ok [xa0] /\ loadb [xa0] = Ok (VBytes [])) /\
  (dumpb (VList []) use_double = Ok [xc0] /\ loadb [xc0] = Ok (VList [])) /\
  (dumpb (VMap []) use_double = Ok [xe0] /\ loadb [xe0] = Ok (VMap [])).
Proof. repeat split; reflexivity. Qed.

(** ** Lists *)

(** C2 (the code departs from it): the list branch of [dumpb] hands each
    element to [struct.pack] instead of [dumpb], so a list that starts with
    an integer raises [TypeError]; [dumpb([1, 2])] returns no bytes. *)
Theorem dumpb_list_of_integer_raises (n : Z) (rest : list Value)
  (use_double : bool) :
  dumpb (VList (VInt n :: rest)) use_double = Raise TypeError.
Proof. reflexivity. Qed.

(** The map branch, which calls [dumpb] on each key and value, builds from
    the same two elements the content the specification gives for the
    list. *)
Example map_content_of_1_2 :
  dumpb (VMap [(VInt 1, VInt 2)]) false = Ok [xe4; x41; x01; x41; x02].
Proof. reflexivity. Qed.

(** C3 (the code departs from it): the list branch of [_loadb] hands the
    content slice to [struct.unpack] instead of [_loadb], so a list element
    with any content raises [TypeError] instead of returning its children. *)
Theorem loadb_list_content_raises (ba : list byte) cl c cr tail :
  elem_type ba = Some TP_LIST ->
  frame ba = Some (cl, c :: cr, tail) ->
  _loadb ba = Raise TypeError.
Proof.
  intros Ht Hf. rewrite (_loadb_frame _ _ _ _ _ Ht Hf). reflexivity.
Qed.

Lemma loadb_list_content_raises_witness :
  elem_type [xc4; x41; x01; x41; x02] = Some TP_LIST /\
  frame [xc4; x41; x01; x41; x02] = Some (4, [x41; x01; x41; x02], []) /\
  _loadb [xc4; x41; x01; x41; x02] = Raise TypeError.
Proof.
  split; [reflexivity|]. split; [reflexivity|].
  apply (loadb_list_content_raises _ 4 x41 [x01; x41; x02] []); reflexivity.
Defined.

(** ** The extended-32 tier *)

(** C5 (the code departs from it): on the 0xFFFF escape [_loadb] calls
    [unpack(">BHL", bytes)] with the builtin type [bytes] for the buffer, so
    every element of the extended-32 tier raises [TypeError]. *)
Theorem loadb_extended_32_raises (b0 : byte) (rest : list byte) :
  Z.land (b2z b0) TP_SMALL_SIZE_MASK = TP_EXTENDED_SIZE_16 ->
  _loadb (b0 :: xff :: xff :: rest) = Raise TypeError.
Proof.
  intros Hs. rewrite _loadb_unfold. unfold loadb_body, load_header.
  rewrite Hs. reflexivity.
Qed.

Lemma loadb_extended_32_raises_witness :
  Z.land (b2z xbf) TP_SMALL_SIZE_MASK = TP_EXTENDED_SIZE_16 /\
  _loadb [xbf; xff; xff; x00; x00; x00; x01; x41] = Raise TypeError.
Proof.
  split; [reflexivity|].
  apply (loadb_extended_32_raises xbf [x00; x00; x00; x01; x41]).
  reflexivity.
Defined.

(** [dumpb] does produce that tier: 65535 bytes are packed with the 0xFFFF
    escape and a 32-bit length, and what [dumpb] returns, [loadb] refuses. *)
Example dumpb_65535_bytes_not_loaded :
  (r <- dumpb (VBytes (repeat x61 (Z.to_nat 65535))) false ;;
   Ok (firstn 7 r, len r))
  = Ok ([xbf; xff; xff; x00; x00; xff; xff], 65542) /\
  (r <- dumpb (VBytes (repeat x61 (Z.to_nat 65535))) false ;; loadb r)
  = Raise TypeError.
Proof. split; vm_compute; reflexivity. Qed.

(** ** None and Boolean elements *)

(** C8, as stated, fails: the None branch of [_loadb] sets [obj = None] and
    looks at nothing else.  The byte 0x01 is type None with declared length
    1, and the element decodes to [None]. *)
Lemma loadb_none_length_1 :
  elem_type [x01; x00] = Some TP_NONE /\
  frame [x01; x00] = Some (1, [x00], []) /\
  _loadb [x01; x00] = Ok (VNone, []).
Proof. repeat split; reflexivity. Qed.

(** C8, amended: an element whose type bits are None decodes to the None
    value whatever content length its header declares (direct or extended-16
    tier); the declared content is skipped and no error is raised. *)
Theorem loadb_none_any_length (ba : list byte) cl cr tail :
  elem_type ba = Some TP_NONE ->
  frame ba = Some (cl, cr, tail) ->
  _loadb ba = Ok (VNone, tail).
Proof.
  intros Ht Hf. rewrite (_loadb_frame _ _ _ _ _ Ht Hf). reflexivity.
Qed.

Lemma loadb_none_any_length_witness :
  elem_type [x02; xaa; xbb; x40] = Some TP_NONE /\
  frame [x02; xaa; xbb; x40] = Some (2, [xaa; xbb], [x40]) /\
  _loadb [x02; xaa; xbb; x40] = Ok (VNone, [x40]).
Proof.
  split; [reflexivity|]. split; [reflexivity|].
  apply (loadb_none_any_length _ 2 [xaa; xbb] [x40]); reflexivity.
Defined.

(** C7, as stated, fails: the Boolean branch tests [content_length] for
    truth and then the first content byte only.  A Boolean element of
    declared length 2 whose first content byte is 1 decodes to [True]. *)
Lemma loadb_boolean_length_2 :
  elem_type [x22; x01; x00] = Some TP_BOOLEAN /\
  frame [x22; x01; x00] = Some (2, [x01; x00], []) /\
  _loadb [x22; x01; x00] = Ok (VBool true, []).
Proof. repeat split; reflexivity. Qed.

(** C7, amended: a Boolean element of declared length 0 decodes to false;
    with any other declared length (1, 2 or more) the first content byte
    decides: non-zero decodes to true, zero is the error "Invalid True
    value", and a buffer that ends before it is an [IndexError]. *)
Theorem loadb_boolean (ba : list byte) cl cr tail :
  elem_type ba = Some TP_BOOLEAN ->
  frame ba = Some (cl, cr, tail) ->
  _loadb ba =
  if cl =? 0 then Ok (VBool false, tail)
  else
    match cr with
    | [] => Raise IndexError
    | c :: _ =>
      if b2z c =? 0 then Raise (ValueError "Invalid True value")
      else Ok (VBool true, tail)
    end.
Proof.
  intros Ht Hf. rewrite (_loadb_frame _ _ _ _ _ Ht Hf).
  unfold load_object.
  change (TP_BOOLEAN =? TP_NONE) with false.
  change (TP_BOOLEAN =? TP_BOOLEAN) with true. cbv iota.
  destruct (cl =? 0); cbn [negb bind]; [reflexivity|].
  destruct cr as [|c cr]; [reflexivity|].
  destruct (b2z c =? 0); reflexivity.
Qed.

Lemma loadb_boolean_witness :
  elem_type [x25; x07; x00] = Some TP_BOOLEAN /\
  frame [x25; x07; x00] = Some (5, [x07; x00], []) /\
  _loadb [x25; x07; x00] = Ok (VBool true, []).
Proof.
  split; [reflexivity|]. split; [reflexivity|].
  apply (loadb_boolean _ 5 [x07; x00] []); reflexivity.
Defined.

(** ** Truncated elements *)

Lemma frame_truncated_tail (ba : list byte) cl cr tail :
  frame ba = Some (cl, cr, tail) -> len cr < cl -> tail = [].
Proof.
  unfold frame, len. destruct ba as [|b0 t]; [discriminate|].
  destruct (Z.land (b2z b0) 31 <? 31).
  - intros H; inversion H; subst; clear H. rewrite length_firstn.
    intros Hl. apply skipn_all2. lia.
  - destruct t as [|h [|l rest]]; try discriminate.
    destruct (b2z h * 256 + b2z l <? 65535); [|discriminate].
    intros H; inversion H; subst; clear H. rewrite length_firstn.
    intros Hl. apply skipn_all2. lia.
Qed.

Lemma unpack_exact_short (n : nat) (buf : list byte) :
  (List.length buf < n)%nat -> unpack_exact n buf = Raise StructError.
Proof.
  intros H. unfold unpack_exact.
  destruct (Nat.eqb_spec (List.length buf) n); [lia|reflexivity].
Qed.

(** C6, as stated, fails: [_loadb] takes the content with a slice, and a
    Python slice stops at the end of the buffer without an error.  A Bytes
    element of declared length 5 with 2 bytes behind the header decodes to
    those 2 bytes, and a String element likewise. *)
Lemma loadb_truncated_bytes_shortened :
  (frame [xa5; x01; x02] = Some (5, [x01; x02], []) /\
   _loadb [xa5; x01; x02] = Ok (VBytes [x01; x02], [])) /\
  (frame [x85; x48; x69] = Some (5, [x48; x69], []) /\
   _loadb [x85; x48; x69] = Ok (VStr [x48; x69], [])).
Proof. repeat split; reflexivity. Qed.

(** C6, amended: when the header (direct or extended-16 tier) declares more
    content bytes than the buffer holds, an Integer or a Real element is a
    decode error ([struct.error] from [unpack] for the widths 1, 2, 4, 8,
    the width error otherwise); a Bytes element decodes to the bytes that
    are there, and a String element to those bytes when they are valid
    UTF-8; nothing is left after the element. *)
Theorem loadb_truncated (ba : list byte) ct cl cr tail :
  elem_type ba = Some ct ->
  frame ba = Some (cl, cr, tail) ->
  len cr < cl ->
  (ct = TP_INTEGER ->
   _loadb ba =
   Raise (if (cl =? 1) || (cl =? 2) || (cl =? 4) || (cl =? 8)
          then StructError else ValueError "Integer number too big")) /\
  (ct = TP_REAL ->
   _loadb ba =
   Raise (if (cl =? 4) || (cl =? 8)
          then StructError else ValueError "Real number too big")) /\
  (ct = TP_BYTES -> _loadb ba = Ok (VBytes cr, [])) /\
  (ct = TP_STRING ->
   _loadb ba = if valid_utf8 cr then Ok (VStr cr, []) else Raise UnicodeError).
Proof.
  intros Ht Hf Hl. rewrite (_loadb_frame _ _ _ _ _ Ht Hf).
  rewrite (frame_truncated_tail _ _ _ _ Hf Hl).
  pose proof (len_nonneg cr) as Hn. unfold len in *.
  repeat split; intros ->; unfold load_object.
  - change (TP_INTEGER =? TP_NONE) with false.
    change (TP_INTEGER =? TP_BOOLEAN) with false.
    change (TP_INTEGER =? TP_INTEGER) with true. cbv iota.
    replace (cl =? 0) with false by (symmetry; apply Z.eqb_neq; lia).
    unfold unpack_signed.
    destruct (Z.eqb_spec cl 1);
      [rewrite unpack_exact_short by lia; reflexivity|].
    destruct (Z.eqb_spec cl 2);
      [rewrite unpack_exact_short by lia; reflexivity|].
    destruct (Z.eqb_spec cl 4);
      [rewrite unpack_exact_short by lia; reflexivity|].
    destruct (Z.eqb_spec cl 8);
      [rewrite unpack_exact_short by lia; reflexivity|].
    reflexivity.
  - change (TP_REAL =? TP_NONE) with false.
    change (TP_REAL =? TP_BOOLEAN) with false.
    change (TP_REAL =? TP_INTEGER) with false.
    change (TP_REAL =? TP_REAL) with true. cbv iota.
    replace (cl =? 0) with false by (symmetry; apply Z.eqb_neq; lia).
    destruct (Z.eqb_spec cl 4);
      [rewrite unpack_exact_short by lia; reflexivity|].
    destruct (Z.eqb_spec cl 8);
      [rewrite unpack_exact_short by lia; reflexivity|].
    reflexivity.
  - reflexivity.
  - change (TP_STRING =? TP_NONE) with false.
    change (TP_STRING =? TP_BOOLEAN) with false.
    change (TP_STRING =? TP_INTEGER) with false.
    change (TP_STRING =? TP_REAL) with false.
    change (TP_STRING =? TP_STRING) with true. cbv iota.
    unfold bytes_decode_utf8. destruct (valid_utf8 cr); reflexivity.
Qed.

Lemma loadb_truncated_witness :
  elem_type [x44; x00; x01] = Some TP_INTEGER /\
  frame [x44; x00; x01] = Some (4, [x00; x01], []) /\
  len [x00; x01] < 4 /\
  _loadb [x44; x00; x01] = Raise StructError.
Proof.
  split; [reflexivity|]. split; [reflexivity|]. split; [reflexivity|].
  exact (proj1 (loadb_truncated [x44; x00; x01] TP_INTEGER 4 [x00; x01] []
                  eq_refl eq_refl eq_refl) eq_refl).
Defined.

(** ** Equality of keys is symmetric and transitive *)

Lemma bytes_eqb_eq (a b : list byte) : bytes_eqb a b = true <-> a = b.
Proof.
  revert b. induction a as [|x a IH]; intros [|y b]; cbn [bytes_eqb];
    split; intros H; try reflexivity; try discriminate.
  - apply andb_prop in H. destruct H as [Hx Ha].
    apply Byte.byte_dec_bl in Hx. apply IH in Ha. congruence.
  - inversion H; subst. apply andb_true_intro. split.
    + apply Byte.byte_dec_lb. reflexivity.
    + apply IH. reflexivity.
Qed.

(** Two scaled mantissas are compared at any common exponent below both. *)
Lemma dyadic_scale (m1 e1 m2 e2 k : Z) :
  k <= e1 -> k <= e2 ->
  (m1 * 2 ^ (e1 - Z.min e1 e2) = m2 * 2 ^ (e2 - Z.min e1 e2) <->
   m1 * 2 ^ (e1 - k) = m2 * 2 ^ (e2 - k)).
Proof.
  intros H1 H2. set (mn := Z.min e1 e2).
  assert (Hk : k <= mn) by (unfold mn; lia).
  assert (Hm1 : mn <= e1) by (unfold mn; lia).
  assert (Hm2 : mn <= e2) by (unfold mn; lia).
  replace (e1 - k) with ((e1 - mn) + (mn - k)) by lia.
  replace (e2 - k) with ((e2 - mn) + (mn - k)) by lia.
  rewrite !Z.pow_add_r by lia.
  assert (Hp : 0 < 2 ^ (mn - k)) by (apply Z.pow_pos_nonneg; lia).
  rewrite !Z.mul_assoc. split; intros H.
  - rewrite H. reflexivity.
  - apply Z.mul_cancel_r in H; [exact H | lia].
Qed.

Lemma num_eqb_sym (a b : num) : num_eqb a b = num_eqb b a.
Proof.
  destruct a as [m1 e1|s1|], b as [m2 e2|s2|]; cbn [num_eqb]; try reflexivity.
  - rewrite (Z.min_comm e2 e1). apply Z.eqb_sym.
  - destruct s1, s2; reflexivity.
Qed.

Lemma num_eqb_trans (a b c : num) :
  num_eqb a b = true -> num_eqb b c = true -> num_eqb a c = true.
Proof.
  destruct a as [m1 e1|s1|], b as [m2 e2|s2|], c as [m3 e3|s3|];
    cbn [num_eqb]; try discriminate.
  - rewrite !Z.eqb_eq. intros H12 H23.
    set (k := Z.min e1 (Z.min e2 e3)).
    apply (dyadic_scale m1 e1 m2 e2 k) in H12; [|unfold k; lia..].
    apply (dyadic_scale m2 e2 m3 e3 k) in H23; [|unfold k; lia..].
    apply (dyadic_scale m1 e1 m3 e3 k); [unfold k; lia..|]. congruence.
  - destruct s1, s2, s3; cbn; congruence.
Qed.

Lemma key_eqb_sym (a b : Value) : key_eqb a b = key_eqb b a.
Proof.
  unfold key_eqb.
  destruct (key_num a) eqn:Ea, (key_num b) eqn:Eb; try reflexivity.
  - apply num_eqb_sym.
  - destruct a, b; try reflexivity; try discriminate.
    + destruct (bytes_eqb utf8 utf0) eqn:E1, (bytes_eqb utf0 utf8) eqn:E2;
        try reflexivity.
      * apply bytes_eqb_eq in E1. subst.
        rewrite (proj2 (bytes_eqb_eq _ _) eq_refl) in E2. discriminate.
      * apply bytes_eqb_eq in E2. subst.
        rewrite (proj2 (bytes_eqb_eq _ _) eq_refl) in E1. discriminate.
    + destruct (bytes_eqb bs bs0) eqn:E1, (bytes_eqb bs0 bs) eqn:E2;
        try reflexivity.
      * apply bytes_eqb_eq in E1. subst.
        rewrite (proj2 (bytes_eqb_eq _ _) eq_refl) in E2. discriminate.
      * apply bytes_eqb_eq in E2. subst.
        rewrite (proj2 (bytes_eqb_eq _ _) eq_refl) in E1. discriminate.
Qed.

Lemma key_eqb_trans (a b c : Value) :
  key_eqb a b = true -> key_eqb b c = true -> key_eqb a c = true.
Proof.
  unfold key_eqb.
  destruct (key_num a) eqn:Ea, (key_num b) eqn:Eb, (key_num c) eqn:Ec;
    try discriminate.
  - apply num_eqb_trans.
  - destruct a, b; try discriminate; destruct c; try discriminate;
      try (intros; reflexivity);
      rewrite !bytes_eqb_eq; congruence.
Qed.

Lemma key_eqb_congr (a b c : Value) :
  key_eqb a b = true -> key_eqb a c = key_eqb b c.
Proof.
  intros Hab.
  destruct (key_eqb a c) eqn:Eac, (key_eqb b c) eqn:Ebc; try reflexivity.
  - rewrite key_eqb_sym in Hab.
    rewrite (key_eqb_trans _ _ _ Hab Eac) in Ebc. discriminate.
  - rewrite (key_eqb_trans _ _ _ Hab Ebc) in Eac. discriminate.
Qed.

(** ** Map elements *)

Lemma dict_get_store (obj : dict) (k1 v1 k : Value) :
  dict_get (dict_store obj k1 v1) k =
  if key_eqb k1 k then Some v1 else dict_get obj k.
Proof.
  induction obj as [|[k0 v0] rest IH]; cbn [dict_store dict_get].
  - reflexivity.
  - destruct (key_eqb k0 k1) eqn:E01; cbn [dict_get].
    + rewrite (key_eqb_congr _ _ k E01).
      destruct (key_eqb k1 k); reflexivity.
    + rewrite IH.
      destruct (key_eqb k0 k) eqn:E0, (key_eqb k1 k) eqn:E1; try reflexivity.
      rewrite (key_eqb_sym k1 k) in E1.
      rewrite (key_eqb_trans _ _ _ E0 E1) in E01. discriminate.
Qed.

Lemma store_pairs_get (ps : list (Value * Value)) :
  forall obj obj' k,
    store_pairs obj ps = Ok obj' ->
    dict_get obj' k =
    match last_value ps k with
    | Some v => Some v
    | None => dict_get obj k
    end.
Proof.
  induction ps as [|[k1 v1] ps IH]; intros obj obj' k H;
    cbn [store_pairs last_value] in *.
  - inversion H. reflexivity.
  - unfold dict_setitem in H. destruct (hashable k1); [|discriminate].
    cbn [bind] in H. rewrite (IH _ _ k H).
    destruct (last_value ps k); [reflexivity|].
    rewrite dict_get_store. destruct (key_eqb k1 k); reflexivity.
Qed.

Lemma elements_cons (n : nat) (c : byte) (raw : list byte) vs :
  (List.length (c :: raw) <= n)%nat ->
  elements n (c :: raw) = Ok vs ->
  exists v rest vs',
    _loadb (c :: raw) = Ok (v, rest) /\
    (List.length rest < List.length (c :: raw))%nat /\
    elements (Nat.pred n) rest = Ok vs' /\ vs = v :: vs'.
Proof.
  intros Hn. destruct n as [|n]; [cbn [List.length] in Hn; lia|].
  cbn [elements Nat.pred].
  destruct (_loadb (c :: raw)) as [[v rest]|e] eqn:E; cbn [bind fst snd];
    [|discriminate].
  destruct (elements n rest) as [vs'|e] eqn:E'; cbn [bind]; [|discriminate].
  intros H; inversion H; subst; clear H.
  exists v, rest, vs'. repeat split; auto.
  apply (_loadb_shrinks _ _ _ E).
Qed.

(** The loop of the map branch on a slice that holds the elements [vs]:
    the pairs are stored in order, then a last element without a partner
    raises the error of the dangling key. *)
Lemma map_loop_elements :
  forall (n m : nat) (content_raw : list byte) (obj : dict) vs,
    (List.length content_raw <= n)%nat ->
    (List.length content_raw <= m)%nat ->
    elements m content_raw = Ok vs ->
    map_loop _loadb n obj content_raw =
    (obj' <- store_pairs obj (pairs vs) ;;
     if Nat.odd (List.length vs)
     then Raise (ValueError "Dict key/value invalid")
     else Ok obj').
Proof.
  induction n as [|n IH]; intros m raw obj vs Hn Hm He.
  - destruct raw; [|cbn [List.length] in Hn; lia].
    destruct m; inversion He; reflexivity.
  - destruct raw as [|c raw].
    { destruct m; inversion He; reflexivity. }
    destruct (elements_cons _ _ _ _ Hm He) as (k & r1 & vs1 & E1 & L1 & He1 & ->).
    cbn [map_loop]. rewrite E1. cbn [bind].
    destruct r1 as [|c1 r1].
    { destruct (Nat.pred m); inversion He1; reflexivity. }
    assert (Hm1 : (List.length (c1 :: r1) <= Nat.pred m)%nat) by lia.
    destruct (elements_cons _ _ _ _ Hm1 He1)
      as (v & r2 & vs2 & E2 & L2 & He2 & ->).
    rewrite E2. cbn [bind pairs store_pairs].
    destruct (dict_setitem obj k v) as [obj1|e]; cbn [bind]; [|reflexivity].
    rewrite (IH (Nat.pred (Nat.pred m)) r2 obj1 vs2); try lia; auto.
Qed.

(** C9, as stated, fails in its second half: a pair is stored with
    [obj[key] = value], which raises [TypeError] when the key is a map (or a
    list).  The content below holds two elements, the empty map and the
    integer 0: no key dangles, and the pair is not inserted. *)
Lemma loadb_map_unhashable_key :
  elem_type [xe2; xe0; x40] = Some TP_MAP /\
  frame [xe2; xe0; x40] = Some (2, [xe0; x40], []) /\
  elements 2 [xe0; x40] = Ok [VMap []; VInt 0] /\
  _loadb [xe2; xe0; x40] = Raise TypeError.
Proof. repeat split; reflexivity. Qed.

(** C9, amended: when the content slice of a Map element holds encoded
    elements that each decode, the pairs (key, value) are stored in parse
    order, which raises [TypeError] at the first key that is a list or a
    map; with hashable keys, an odd number of elements fails with the
    dangling-key error "Dict key/value invalid", and an even number gives
    the map in which every key has the value of the last pair with an equal
    key (last-write-wins). *)
Theorem loadb_map (ba : list byte) cl cr tail vs :
  elem_type ba = Some TP_MAP ->
  frame ba = Some (cl, cr, tail) ->
  elements (List.length cr) cr = Ok vs ->
  _loadb ba =
    (obj <- store_pairs [] (pairs vs) ;;
     if Nat.odd (List.length vs)
     then Raise (ValueError "Dict key/value invalid")
     else Ok (VMap obj, tail)) /\
  (forallb hashable (map fst (pairs vs)) = true ->
   exists obj,
     store_pairs [] (pairs vs) = Ok obj /\
     forall k, dict_get obj k = last_value (pairs vs) k).
Proof.
  intros Ht Hf He. split.
  - rewrite (_loadb_frame _ _ _ _ _ Ht Hf). unfold load_object.
    change (TP_MAP =? TP_NONE) with false.
    change (TP_MAP =? TP_BOOLEAN) with false.
    change (TP_MAP =? TP_INTEGER) with false.
    change (TP_MAP =? TP_REAL) with false.
    change (TP_MAP =? TP_STRING) with false.
    change (TP_MAP =? TP_BYTES) with false.
    change (TP_MAP =? TP_LIST) with false.
    change (TP_MAP =? TP_MAP) with true. cbv iota.
    rewrite (map_loop_elements _ _ _ _ _ (le_n _) (le_n _) He).
    destruct (store_pairs [] (pairs vs)); cbn [bind]; [|reflexivity].
    destruct (Nat.odd (List.length vs)); reflexivity.
  - intros Hh.
    assert (G : forall ps obj,
               forallb hashable (map fst ps) = true ->
               exists obj', store_pairs obj ps = Ok obj').
    { induction ps as [|[k v] ps IH]; intros obj H; cbn [store_pairs].
      - exists obj. reflexivity.
      - cbn [map fst forallb] in H. apply andb_prop in H.
        destruct H as [Hk Hps]. unfold dict_setitem. rewrite Hk. cbn [bind].
        apply IH. exact Hps. }
    destruct (G _ [] Hh) as (obj & Ho). exists obj. split; [exact Ho|].
    intros k. rewrite (store_pairs_get _ _ _ k Ho).
    destruct (last_value (pairs vs) k); reflexivity.
Qed.

Lemma loadb_map_witness :
  elem_type [xe8; x41; x01; x41; x02; x41; x01; x41; x03] = Some TP_MAP /\
  frame [xe8; x41; x01; x41; x02; x41; x01; x41; x03]
  = Some (8, [x41; x01; x41; x02; x41; x01; x41; x03], []) /\
  elements 8 [x41; x01; x41; x02; x41; x01; x41; x03]
  = Ok [VInt 1; VInt 2; VInt 1; VInt 3] /\
  _loadb [xe8; x41; x01; x41; x02; x41; x01; x41; x03]
  = Ok (VMap [(VInt 1, VInt 3)], []).
Proof.
  split; [reflexivity|]. split; [reflexivity|]. split; [reflexivity|].
  exact (proj1 (loadb_map [xe8; x41; x01; x41; x02; x41; x01; x41; x03]
                  8 [x41; x01; x41; x02; x41; x01; x41; x03] []
                  [VInt 1; VInt 2; VInt 1; VInt 3]
                  eq_refl eq_refl eq_refl)).
Defined.

(** A last key without a value: the error of the dangling key. *)
Example loadb_map_dangling_key :
  _loadb [xe6; x41; x01; x41; x02; x41; x03]
  = Raise (ValueError "Dict key/value invalid").
Proof. reflexivity. Qed.

(** ** The round trip *)

(** Induction on values, through the elements of lists and the items of
    maps. *)
Lemma Value_nested_ind (P : Value -> Prop) :
  P VNone ->
  (forall b, P (VBool b)) ->
  (forall n, P (VInt n)) ->
  (forall x, P (VReal x)) ->
  (forall s, P (VStr s)) ->
  (forall s, P (VBytes s)) ->
  (forall items, Forall P items -> P (VList items)) ->
  (forall items, Forall (fun kv => P (fst kv) /\ P (snd kv)) items ->
                 P (VMap items)) ->
  forall v, P v.
Proof.
  intros HN HB HI HR HS HY HL HM.
  fix IH 1. intros [ | b | n | x | s | s | items | items ].
  - exact HN.
  - apply HB.
  - apply HI.
  - apply HR.
  - apply HS.
  - apply HY.
  - apply HL. induction items as [|v items IHl]; constructor.
    + apply IH.
    + exact IHl.
  - apply HM. induction items as [|[k v] items IHl]; constructor.
    + split; apply IH.
    + exact IHl.
Qed.

(** The header byte of a type and a size field. *)
Lemma header_byte_bits (tp n : Z) :
  In tp [TP_NONE; TP_BOOLEAN; TP_INTEGER; TP_REAL;
         TP_STRING; TP_BYTES; TP_LIST; TP_MAP] ->
  0 <= n <= 31 ->
  0 <= Z.lor tp n < 256 /\
  Z.land (Z.lor tp n) 0xE0 = tp /\
  Z.land (Z.lor tp n) 0x1F = n.
Proof.
  intros Ht Hn.
  assert (Hc : forallb (fun t =>
             forallb (fun k =>
               let n := Z.of_nat k in
               (0 <=? Z.lor t n) && (Z.lor t n <? 256)
               && (Z.land (Z.lor t n) 0xE0 =? t)
               && (Z.land (Z.lor t n) 0x1F =? n)) (seq 0 32))
             [TP_NONE; TP_BOOLEAN; TP_INTEGER; TP_REAL;
              TP_STRING; TP_BYTES; TP_LIST; TP_MAP] = true)
    by (vm_compute; reflexivity).
  rewrite forallb_forall in Hc. specialize (Hc tp Ht).
  rewrite forallb_forall in Hc. specialize (Hc (Z.to_nat n)).
  rewrite Z2Nat.id in Hc by lia.
  assert (Hin : In (Z.to_nat n) (seq 0 32)) by (apply in_seq; lia).
  specialize (Hc Hin). cbv zeta in Hc.
  repeat (apply andb_prop in Hc; destruct Hc as [Hc ?]).
  rewrite Z.leb_le in *. rewrite Z.ltb_lt in *. rewrite !Z.eqb_eq in *.
  repeat split; lia || assumption.
Qed.

Lemma pack_unsigned_1 (v : Z) :
  0 <= v < 256 -> pack_unsigned 1 v = Ok [z2b v].
Proof.
  intros Hv. unfold pack_unsigned.
  replace ((0 <=? v) && (v <? 2 ^ (8 * Z.of_nat 1))) with true.
  - cbn [be_bytes]. change (256 ^ Z.of_nat 0) with 1.
    rewrite Z.div_1_r, Z.mod_small by lia. reflexivity.
  - symmetry. apply andb_true_intro. split.
    + apply Z.leb_le. lia.
    + apply Z.ltb_lt. change (2 ^ (8 * Z.of_nat 1)) with 256. lia.
Qed.

Lemma pack_unsigned_2 (v : Z) :
  0 <= v < 65536 ->
  exists h l, pack_unsigned 2 v = Ok [h; l] /\ b2z h * 256 + b2z l = v.
Proof.
  intros Hv. unfold pack_unsigned.
  replace ((0 <=? v) && (v <? 2 ^ (8 * Z.of_nat 2))) with true.
  - pose proof (be_value_be_bytes 2 v) as E.
    cbn [be_bytes] in *. eexists. eexists. split; [reflexivity|].
    rewrite be_value_2 in E. rewrite E.
    change (256 ^ Z.of_nat 2) with 65536. apply Z.mod_small. lia.
  - symmetry. apply andb_true_intro. split.
    + apply Z.leb_le. lia.
    + apply Z.ltb_lt. change (2 ^ (8 * Z.of_nat 2)) with 65536. lia.
Qed.

Lemma firstn_len_app (c tail : list byte) :
  firstn (Z.to_nat (len c)) (c ++ tail) = c.
Proof.
  unfold len. rewrite Nat2Z.id, firstn_app, Nat.sub_diag, firstn_all.
  cbn [firstn]. apply app_nil_r.
Qed.

Lemma skipn_len_app (c tail : list byte) :
  skipn (Z.to_nat (len c)) (c ++ tail) = tail.
Proof.
  unfold len. rewrite Nat2Z.id, skipn_app, Nat.sub_diag, skipn_all.
  reflexivity.
Qed.

(** What [dump_block] emits below the extended-32 tier is an element of
    type [tp] whose frame is the content, whatever follows. *)
Lemma dump_block_frame (tp : Z) (c : list byte) (msg : string) :
  In tp [TP_NONE; TP_BOOLEAN; TP_INTEGER; TP_REAL;
         TP_STRING; TP_BYTES; TP_LIST; TP_MAP] ->
  len c < 0xFFFF ->
  exists b,
    dump_block tp c msg = Ok b /\ b <> [] /\
    forall tail,
      elem_type (b ++ tail) = Some tp /\
      frame (b ++ tail) = Some (len c, c, tail).
Proof.
  intros Ht Hl. pose proof (len_nonneg c) as Hn. unfold dump_block.
  unfold TP_SMALL_SIZE_MAX, TP_EXTENDED_SIZE_16.
  destruct (Z.leb_spec (len c) 30) as [Hs|Hs].
  - destruct (header_byte_bits tp (len c) Ht) as (Hr & Hty & Hsz); [lia|].
    unfold pack_B_s. rewrite pack_unsigned_1 by exact Hr. cbn [bind].
    eexists. split; [reflexivity|]. split; [discriminate|].
    intros tail. cbn [app elem_type frame].
    rewrite b2z_z2b by exact Hr. rewrite Hty, Hsz.
    replace (len c <? 31) with true by (symmetry; apply Z.ltb_lt; lia).
    rewrite firstn_len_app, skipn_len_app. split; reflexivity.
  - replace (len c <? 65535) with true by (symmetry; apply Z.ltb_lt; lia).
    destruct (header_byte_bits tp 31 Ht) as (Hr & Hty & Hsz); [lia|].
    unfold pack_BH_s. rewrite pack_unsigned_1 by exact Hr. cbn [bind].
    destruct (pack_unsigned_2 (len c)) as (h & l & Hp & Hv); [lia|].
    rewrite Hp. cbn [bind].
    eexists. split; [reflexivity|]. split; [discriminate|].
    intros tail. cbn [app elem_type frame].
    rewrite b2z_z2b by exact Hr. rewrite Hty, Hsz.
    change (31 <? 31) with false. cbv iota. rewrite Hv.
    replace (len c <? 65535) with true by (symmetry; apply Z.ltb_lt; lia).
    rewrite firstn_len_app, skipn_len_app. split; reflexivity.
Qed.

(** Two's complement: the signed reading of the low [k] bytes gives the
    integer back when it is in the signed range of [k] bytes. *)
Lemma to_signed_mod (k : nat) (n : Z) :
  (0 < k)%nat ->
  - 2 ^ (8 * Z.of_nat k - 1) <= n < 2 ^ (8 * Z.of_nat k - 1) ->
  to_signed k (n mod 256 ^ Z.of_nat k) = n.
Proof.
  intros Hk Hn. unfold to_signed.
  replace (256 ^ Z.of_nat k) with (2 ^ (8 * Z.of_nat k))
    by (change 256 with (2 ^ 8); rewrite <- Z.pow_mul_r by lia; reflexivity).
  set (w := 8 * Z.of_nat k) in *.
  assert (Hw : 2 ^ w = 2 * 2 ^ (w - 1)).
  { replace w with (Z.succ (w - 1)) at 1 by lia.
    apply Z.pow_succ_r. unfold w. lia. }
  assert (Hp : 0 < 2 ^ (w - 1)) by (apply Z.pow_pos_nonneg; unfold w; lia).
  destruct (Z.le_gt_cases 0 n) as [H0|H0].
  - rewrite Z.mod_small by lia.
    destruct (Z.ltb_spec n (2 ^ (w - 1))); lia.
  - replace (n mod 2 ^ w) with (n + 2 ^ w).
    + destruct (Z.ltb_spec (n + 2 ^ w) (2 ^ (w - 1))); lia.
    + apply Z.mod_unique with (q := -1); lia.
Qed.

Lemma frame_direct (b0 : byte) (c tail : list byte) :
  Z.land (b2z b0) 0x1F = len c -> len c < 31 ->
  frame (b0 :: c ++ tail) = Some (len c, c, tail).
Proof.
  intros Hs Hl. cbn [frame]. rewrite Hs.
  replace (len c <? 31) with true by (symmetry; apply Z.ltb_lt; lia).
  rewrite firstn_len_app, skipn_len_app. reflexivity.
Qed.

Lemma unpack_exact_be_bytes (k : nat) (n : Z) :
  unpack_exact k (be_bytes k n) = Ok (be_bytes k n).
Proof.
  unfold unpack_exact. rewrite be_bytes_length, Nat.eqb_refl. reflexivity.
Qed.

Lemma unpack_signed_be_bytes (k : nat) (n : Z) :
  (0 < k)%nat ->
  - 2 ^ (8 * Z.of_nat k - 1) <= n < 2 ^ (8 * Z.of_nat k - 1) ->
  unpack_signed k (be_bytes k n) = Ok n.
Proof.
  intros Hk Hn. unfold unpack_signed. rewrite unpack_exact_be_bytes.
  cbn [bind]. rewrite be_value_be_bytes, to_signed_mod by assumption.
  reflexivity.
Qed.

(** An integer of magnitude below 2^63 is packed, and read back. *)
Lemma integer_round_trip (n : Z) (tail : list byte) :
  Z.abs n < 2 ^ 63 ->
  exists b,
    dump_integer n = Ok b /\ b <> [] /\
    _loadb (b ++ tail) = Ok (VInt n, tail).
Proof.
  intros Hn. rewrite dump_integer_by_magnitude.
  destruct (Z.eqb_spec n 0) as [->|Hz].
  { eexists. split; [reflexivity|]. split; [discriminate|]. reflexivity. }
  assert (W : forall (k : nat) (h : byte),
             (0 < k)%nat ->
             elem_type [h] = Some TP_INTEGER ->
             Z.land (b2z h) 0x1F = Z.of_nat k ->
             Z.of_nat k < 31 ->
             load_object _loadb TP_INTEGER (Z.of_nat k) (be_bytes k n)
             = (r <- unpack_signed k (be_bytes k n) ;; Ok (VInt r)) ->
             - 2 ^ (8 * Z.of_nat k - 1) <= n < 2 ^ (8 * Z.of_nat k - 1) ->
             _loadb ((h :: be_bytes k n) ++ tail) = Ok (VInt n, tail)).
  { intros k h Hk Ht Hs Hl Ho Hr.
    assert (Hlen : len (be_bytes k n) = Z.of_nat k)
      by (unfold len; rewrite be_bytes_length; reflexivity).
    rewrite (_loadb_frame ((h :: be_bytes k n) ++ tail) TP_INTEGER
               (Z.of_nat k) (be_bytes k n) tail).
    - rewrite Ho, unpack_signed_be_bytes by assumption. reflexivity.
    - exact Ht.
    - cbn [app]. rewrite <- Hlen. apply frame_direct; rewrite Hlen; auto. }
  change (2 ^ 7) with 128. change (2 ^ 15) with 32768.
  change (2 ^ 31) with 2147483648.
  change (2 ^ 63) with 9223372036854775808 in *.
  destruct (Z.ltb_spec (Z.abs n) 128).
  { eexists. split; [reflexivity|]. split; [discriminate|].
    apply (W 1%nat); try reflexivity; try lia. }
  destruct (Z.ltb_spec (Z.abs n) 32768).
  { eexists. split; [reflexivity|]. split; [discriminate|].
    apply (W 2%nat); try reflexivity; try lia. }
  destruct (Z.ltb_spec (Z.abs n) 2147483648).
  { eexists. split; [reflexivity|]. split; [discriminate|].
    apply (W 4%nat); try reflexivity; try lia. }
  destruct (Z.ltb_spec (Z.abs n) 9223372036854775808); [|lia].
  eexists. split; [reflexivity|]. split; [discriminate|].
  apply (W 8%nat); try reflexivity; try lia.
Qed.

(** ** Reals *)

Lemma lor_below_pow2 (a b k : Z) :
  0 <= a < 2 ^ k -> 0 <= b < 2 ^ k -> 0 <= Z.lor a b < 2 ^ k.
Proof.
  intros Ha Hb. assert (Hn : 0 <= Z.lor a b) by (apply Z.lor_nonneg; lia).
  split; [exact Hn|].
  destruct (Z.eq_dec (Z.lor a b) 0) as [E|E]; [lia|].
  destruct (Z.le_gt_cases k 0) as [Hk|Hk].
  { assert (2 ^ k <= 2 ^ 0) by (apply Z.pow_le_mono_r; lia).
    assert (a = 0) by (change (2 ^ 0) with 1 in *; lia).
    assert (b = 0) by (change (2 ^ 0) with 1 in *; lia).
    subst. cbn in E. lia. }
  apply Z.log2_lt_pow2; [lia|].
  rewrite Z.log2_lor by lia.
  apply Z.max_lub_lt.
  - destruct (Z.eq_dec a 0) as [->|]; [cbn; lia|].
    apply Z.log2_lt_pow2; lia.
  - destruct (Z.eq_dec b 0) as [->|]; [cbn; lia|].
    apply Z.log2_lt_pow2; lia.
Qed.

(** The single-precision pattern [f64_to_f32] returns has 32 bits. *)
Lemma f64_to_f32_range (x y : Z) :
  f64_to_f32 x = Ok y -> 0 <= y < 2 ^ 32.
Proof.
  unfold f64_to_f32.
  pose proof (Z.mod_pos_bound (x / 2 ^ 63) 2 ltac:(lia)) as Hs.
  pose proof (Z.mod_pos_bound x (2 ^ 52) ltac:(lia)) as Hm.
  pose proof (Z.mod_pos_bound (x / 2 ^ 52) 2048 ltac:(lia)) as He.
  set (s := (x / 2 ^ 63) mod 2) in *.
  set (m := x mod 2 ^ 52) in *.
  set (e := (x / 2 ^ 52) mod 2048) in *.
  change (2 ^ 31) with 2147483648. change (2 ^ 32) with 4294967296.
  change 0x7F800000 with 2139095040.
  destruct (e =? 2047).
  - destruct (m =? 0).
    + intros H; injection H as <-. lia.
    + intros H; injection H as <-.
      assert (Hq : 0 <= m / 2 ^ 29 < 2 ^ 23).
      { split; [apply Z.div_pos; lia|].
        apply Z.div_lt_upper_bound; [lia|].
        change (2 ^ 29 * 2 ^ 23) with (2 ^ 52). lia. }
      pose proof (lor_below_pow2 (m / 2 ^ 29) (2 ^ 22) 23 Hq
                    ltac:(change (2 ^ 22) with 4194304;
                          change (2 ^ 23) with 8388608; lia)) as Hl.
      change (2 ^ 23) with 8388608 in Hl.
      match goal with
      | |- context [Z.lor ?a ?b] => change (Z.lor a b)
                                      with (Z.lor (m / 2 ^ 29) (2 ^ 22))
      end. lia.
  - destruct (Z.eqb_spec e 0) as [E0|E0].
    + intros H; injection H as <-. lia.
    + set (E := e - 1023) in *.
      set (sh := if -126 <=? E then 29 else - E - 97).
      set (q := (2 ^ 52 + m) / 2 ^ sh).
      set (r := (2 ^ 52 + m) mod 2 ^ sh).
      set (q' := if (2 ^ (sh - 1) <? r) || ((r =? 2 ^ (sh - 1)) && Z.odd q)
                 then q + 1 else q).
      set (base := if -126 <=? E then (E + 126) * 2 ^ 23 else 0).
      assert (Hsh : 0 <= sh).
      { unfold sh. destruct (Z.leb_spec (-126) E); lia. }
      assert (Hq : 0 <= q).
      { unfold q. apply Z.div_pos; [lia|]. apply Z.pow_pos_nonneg; lia. }
      assert (Hq' : 0 <= q').
      { unfold q'. destruct (_ || _); lia. }
      assert (Hb : 0 <= base).
      { unfold base. destruct (Z.leb_spec (-126) E); [|lia].
        apply Z.mul_nonneg_nonneg; lia. }
      destruct (Z.leb_spec 2139095040 (base + q')); [discriminate|].
      intros Hy; injection Hy as <-. lia.
Qed.

Lemma pack_unsigned_real_tags :
  pack_unsigned 1 (Z.lor TP_REAL 8) = Ok [x68] /\
  pack_unsigned 1 (Z.lor TP_REAL 4) = Ok [x64].
Proof. split; reflexivity. Qed.

(** What comes back for a real that is not a zero: the same pattern in
    double precision, the widened single-precision rounding otherwise. *)
Lemma real_pack_unpack (x : Z) (tail : list byte) :
  0 <= x < 2 ^ 64 -> float_is_zero x = false ->
  (exists b, dump_real x true = Ok b /\ b <> [] /\
             _loadb (b ++ tail) = Ok (VReal x, tail)) /\
  (forall y, f64_to_f32 x = Ok y ->
     exists b, dump_real x false = Ok b /\ b <> [] /\
               _loadb (b ++ tail) = Ok (VReal (f32_to_f64 y), tail)).
Proof.
  intros Hx Hz. unfold dump_real. rewrite Hz.
  destruct pack_unsigned_real_tags as [T8 T4]. rewrite T8, T4. cbn [bind].
  split.
  - eexists. split; [reflexivity|]. split; [discriminate|].
    rewrite (_loadb_frame (([x68] ++ be_bytes 8 x) ++ tail) TP_REAL 8
               (be_bytes 8 x) tail).
    + unfold load_object.
      change (TP_REAL =? TP_NONE) with false.
      change (TP_REAL =? TP_BOOLEAN) with false.
      change (TP_REAL =? TP_INTEGER) with false.
      change (TP_REAL =? TP_REAL) with true.
      change (8 =? 0) with false. change (8 =? 4) with false.
      change (8 =? 8) with true. cbv iota.
      rewrite unpack_exact_be_bytes. cbn [bind].
      rewrite be_value_be_bytes. change (256 ^ Z.of_nat 8) with (2 ^ 64).
      rewrite Z.mod_small by lia. reflexivity.
    + reflexivity.
    + cbn [app].
      change 8 with (len (be_bytes 8 x)) at 1.
      apply frame_direct; reflexivity.
  - intros y Hy. rewrite Hy. cbn [bind].
    pose proof (f64_to_f32_range _ _ Hy) as Hr.
    eexists. split; [reflexivity|]. split; [discriminate|].
    rewrite (_loadb_frame (([x64] ++ be_bytes 4 y) ++ tail) TP_REAL 4
               (be_bytes 4 y) tail).
    + unfold load_object.
      change (TP_REAL =? TP_NONE) with false.
      change (TP_REAL =? TP_BOOLEAN) with false.
      change (TP_REAL =? TP_INTEGER) with false.
      change (TP_REAL =? TP_REAL) with true.
      change (4 =? 0) with false. change (4 =? 4) with true. cbv iota.
      rewrite unpack_exact_be_bytes. cbn [bind].
      rewrite be_value_be_bytes. change (256 ^ Z.of_nat 4) with (2 ^ 32).
      rewrite Z.mod_small by lia. reflexivity.
    + reflexivity.
    + cbn [app].
      change 4 with (len (be_bytes 4 y)) at 1.
      apply frame_direct; reflexivity.
Qed.

Lemma real_round_trip (x : Z) (use_double : bool) (tail : list byte) :
  real_kept use_double x = true ->
  exists b,
    dump_real x use_double = Ok b /\ b <> [] /\
    _loadb (b ++ tail) = Ok (VReal x, tail).
Proof.
  unfold real_kept. intros H. apply orb_prop in H.
  destruct H as [H|H].
  - apply Z.eqb_eq in H. subst x.
    exists [x60]. repeat split; try discriminate; destruct use_double; reflexivity.
  - repeat (apply andb_prop in H; destruct H as [H ?]).
    apply Z.ltb_lt in H. rewrite Z.ltb_lt in *.
    assert (Hz : float_is_zero x = false)
      by (destruct (float_is_zero x); [discriminate|reflexivity]).
    destruct (real_pack_unpack x tail ltac:(lia) Hz) as [Hd Hs].
    destruct use_double; [exact Hd|].
    cbn [orb] in *. unfold single_exact in *.
    destruct (f64_to_f32 x) as [y|] eqn:Ey; [|discriminate].
    destruct (Hs y eq_refl) as (b & Hb & Hne & Hl).
    exists b. repeat split; auto.
    match goal with
    | E : (f32_to_f64 y =? x) = true |- _ => apply Z.eqb_eq in E; rewrite E in Hl
    end. exact Hl.
Qed.

(** ** Maps of supported values *)

Lemma dumpb_map_content (items : list (Value * Value)) (use_double : bool) :
  dumpb (VMap items) use_double =
  (content <- map_content items ;; dump_block TP_MAP content "Dict too long").
Proof.
  cbn [dumpb]. f_equal.
  unfold map_content.
  induction items as [|item rest IH]; [reflexivity|].
  cbn [join_map]. rewrite IH.
  destruct (dumpb (fst item) false) as [k|e]; cbn [bind]; [|reflexivity].
  destruct (dumpb (snd item) false) as [v|e]; cbn [bind]; [|reflexivity].
  destruct (join_map _ rest) as [r|e]; cbn [bind]; [|reflexivity].
  rewrite app_assoc. reflexivity.
Qed.

Lemma supported_map (items : list (Value * Value)) (use_double : bool) :
  supported use_double (VMap items) =
  forallb (fun item => hashable (fst item) && supported false (fst item)
                       && supported false (snd item)) items
  && keys_distinct (map fst items)
  && match map_content items with
     | Ok c => len c <? 0xFFFF
     | Raise _ => false
     end.
Proof.
  cbn [supported].
  match goal with
  | |- ?a && _ && _ = ?b && _ && _ => assert (E : a = b)
  end.
  { induction items as [|item rest IH]; [reflexivity|].
    cbn [forallb]. rewrite <- IH. reflexivity. }
  rewrite E. reflexivity.
Qed.

Lemma dict_store_fresh (obj : dict) (k v : Value) :
  (forall k0, In k0 (map fst obj) -> key_eqb k0 k = false) ->
  dict_store obj k v = obj ++ [(k, v)].
Proof.
  induction obj as [|[k0 v0] rest IH]; intros H; cbn [dict_store app].
  - reflexivity.
  - rewrite (H k0) by (left; reflexivity).
    rewrite IH; [reflexivity|]. intros k1 H1. apply H. right. exact H1.
Qed.

Lemma map_loop_step rec (n : nat) (obj : dict) (raw raw1 raw2 : list byte)
  (k v : Value) :
  raw <> [] -> rec raw = Ok (k, raw1) ->
  raw1 <> [] -> rec raw1 = Ok (v, raw2) ->
  map_loop rec (S n) obj raw =
  (obj' <- dict_setitem obj k v ;; map_loop rec n obj' raw2).
Proof.
  intros H0 E0 H1 E1. destruct raw as [|c raw]; [congruence|].
  cbn [map_loop]. rewrite E0. cbn [bind].
  destruct raw1 as [|c1 raw1]; [congruence|].
  rewrite E1. reflexivity.
Qed.

Lemma map_loop_round_trip (items : list (Value * Value)) :
  Forall (fun kv => reads_back (fst kv) /\ reads_back (snd kv)) items ->
  forall (obj : dict) (n : nat) (c : list byte),
    map_content items = Ok c ->
    forallb (fun item => hashable (fst item)) items = true ->
    keys_distinct (map fst items) = true ->
    (forall k0 k, In k0 (map fst obj) -> In k (map fst items) ->
                  key_eqb k0 k = false) ->
    (List.length c <= n)%nat ->
    map_loop _loadb n obj c = Ok (obj ++ items).
Proof.
  induction 1 as [|[k v] rest [Rk Rv] _ IH]; intros obj n c Hc Hh Hd Hf Hn.
  - injection Hc as <-. rewrite app_nil_r. destruct n; reflexivity.
  - destruct Rk as (bk & Ek & Nk & Lk). destruct Rv as (bv & Ev & Nv & Lv).
    cbn [fst snd] in *.
    unfold map_content in Hc. cbn [join_map fst snd] in Hc.
    rewrite Ek, Ev in Hc. cbn [bind] in Hc.
    fold (map_content rest) in Hc.
    destruct (map_content rest) as [c'|e] eqn:Ec'; cbn [bind] in Hc;
      [|discriminate].
    injection Hc as <-.
    cbn [forallb fst] in Hh. apply andb_prop in Hh. destruct Hh as [Hk Hh].
    cbn [map fst keys_distinct] in Hd. apply andb_prop in Hd.
    destruct Hd as [Hfresh Hd].
    assert (Hlen : (List.length ((bk ++ bv) ++ c')
                    = List.length bk + List.length bv + List.length c')%nat)
      by (rewrite !length_app; reflexivity).
    assert (Lbk : (0 < List.length bk)%nat)
      by (destruct bk; [congruence | cbn; lia]).
    assert (Lbv : (0 < List.length bv)%nat)
      by (destruct bv; [congruence | cbn; lia]).
    destruct n as [|n]; [lia|].
    rewrite (map_loop_step _loadb n obj ((bk ++ bv) ++ c') (bv ++ c') c' k v).
    + unfold dict_setitem. rewrite Hk. cbn [bind].
      rewrite dict_store_fresh.
      * rewrite (IH (obj ++ [(k, v)]) n c' eq_refl Hh Hd).
        -- rewrite <- app_assoc. reflexivity.
        -- intros k0 k1 H0 H1. rewrite map_app in H0.
           apply in_app_or in H0. destruct H0 as [H0|H0].
           ++ apply Hf; [exact H0 | right; exact H1].
           ++ cbn [map fst In] in H0. destruct H0 as [<-|[]].
              apply negb_true_iff in Hfresh.
              destruct (key_eqb k k1) eqn:E; [|reflexivity].
              rewrite <- Hfresh. symmetry. apply existsb_exists.
              exists k1. split; [exact H1|exact E].
        -- lia.
      * intros k0 H0. apply Hf; [exact H0 | left; reflexivity].
    + destruct bk; [congruence | discriminate].
    + rewrite <- app_assoc. apply Lk.
    + destruct bv; [congruence | discriminate].
    + apply Lv.
Qed.

Lemma load_object_block rec (cl : Z) (cr : list byte) :
  load_object rec TP_STRING cl cr
  = (s <- bytes_decode_utf8 cr ;; Ok (VStr s)) /\
  load_object rec TP_BYTES cl cr = Ok (VBytes cr) /\
  load_object rec TP_LIST cl cr
  = (obj <- list_loop (List.length cr) [] cr ;; Ok (VList obj)) /\
  load_object rec TP_MAP cl cr
  = (obj <- map_loop rec (List.length cr) [] cr ;; Ok (VMap obj)).
Proof. repeat split; reflexivity. Qed.

(** Every supported value is packed, and read back whatever follows. *)
Lemma round_trip_tail (v : Value) :
  forall use_double,
    supported use_double v = true ->
    exists b, dumpb v use_double = Ok b /\ b <> [] /\
              forall tail, _loadb (b ++ tail) = Ok (v, tail).
Proof.
  induction v as [ | b | n | x | s | s | items IH | items IH ]
    using Value_nested_ind; intros ud Hs.
  - exists [x00]. split; [reflexivity|]. split; [discriminate|].
      intros tail. reflexivity.
  - destruct b.
    + exists [x21; x01]. split; [reflexivity|]. split; [discriminate|].
      intros tail. reflexivity.
    + exists [x20]. split; [reflexivity|]. split; [discriminate|].
      intros tail. reflexivity.
  - cbn [supported] in Hs. apply Z.ltb_lt in Hs. cbn [dumpb].
    destruct (integer_round_trip n [] Hs) as (b & Hb & Hne & _).
    exists b. repeat split; auto. intros tail.
    destruct (integer_round_trip n tail Hs) as (b' & Hb' & _ & Hl).
    congruence.
  - cbn [supported] in Hs. cbn [dumpb].
    destruct (real_round_trip x ud [] Hs) as (b & Hb & Hne & _).
    exists b. repeat split; auto. intros tail.
    destruct (real_round_trip x ud tail Hs) as (b' & Hb' & _ & Hl).
    congruence.
  - cbn [supported] in Hs. apply andb_prop in Hs. destruct Hs as [Hv Hl].
    apply Z.ltb_lt in Hl. cbn [dumpb]. unfold str_encode_utf8. rewrite Hv.
    cbn [bind].
    destruct (dump_block_frame TP_STRING s "String too long")
      as (b & Hb & Hne & Hf); [cbn; tauto | exact Hl |].
    exists b. repeat split; auto. intros tail. destruct (Hf tail) as [Ht Hfr].
    rewrite (_loadb_frame _ _ _ _ _ Ht Hfr).
    rewrite (proj1 (load_object_block _ _ _)).
    unfold bytes_decode_utf8. rewrite Hv. reflexivity.
  - cbn [supported] in Hs. apply Z.ltb_lt in Hs. cbn [dumpb].
    destruct (dump_block_frame TP_BYTES s "Bytearray too long")
      as (b & Hb & Hne & Hf); [cbn; tauto | exact Hs |].
    exists b. repeat split; auto. intros tail. destruct (Hf tail) as [Ht Hfr].
    rewrite (_loadb_frame _ _ _ _ _ Ht Hfr).
    rewrite (proj1 (proj2 (load_object_block _ _ _))). reflexivity.
  - destruct items as [|v items]; [|discriminate].
    exists [xc0]. split; [reflexivity|]. split; [discriminate|].
      intros tail. reflexivity.
  - rewrite supported_map in Hs.
    apply andb_prop in Hs. destruct Hs as [Hs Hc].
    apply andb_prop in Hs. destruct Hs as [Hall Hd].
    destruct (map_content items) as [c|e] eqn:Ec; [|discriminate].
    apply Z.ltb_lt in Hc.
    rewrite dumpb_map_content, Ec. cbn [bind].
    destruct (dump_block_frame TP_MAP c "Dict too long")
      as (b & Hb & Hne & Hf); [cbn; tauto | exact Hc |].
    exists b. repeat split; auto. intros tail. destruct (Hf tail) as [Ht Hfr].
    rewrite (_loadb_frame _ _ _ _ _ Ht Hfr).
    rewrite (proj2 (proj2 (proj2 (load_object_block _ _ _)))).
    rewrite (map_loop_round_trip items) with (obj := []) (c := c);
      try reflexivity; auto.
    + rewrite Forall_forall in IH. apply Forall_forall. intros kv Hin.
      rewrite forallb_forall in Hall. specialize (Hall kv Hin).
      apply andb_prop in Hall. destruct Hall as [Hall Hsv].
      apply andb_prop in Hall. destruct Hall as [_ Hsk].
      destruct (IH kv Hin) as [IHk IHv]. split.
      * apply (IHk false Hsk).
      * apply (IHv false Hsv).
    + rewrite forallb_forall in Hall. apply forallb_forall. intros kv Hin.
      specialize (Hall kv Hin).
      apply andb_prop in Hall. destruct Hall as [Hall _].
      apply andb_prop in Hall. destruct Hall as [Hh _]. exact Hh.
    + intros k0 k [].
Qed.

(** C1, as stated, fails: -2^63 is a 64-bit signed integer and [dumpb]
    rejects it, so there is nothing to decode (and a list with an element
    is not encoded either, see C2). *)
Lemma round_trip_fails :
  (r <- dumpb (VInt (- 2 ^ 63)) false ;; loadb r)
  = Raise (ValueError "Integer number too big") /\
  (r <- dumpb (VList [VInt 1]) false ;; loadb r) = Raise TypeError.
Proof. split; reflexivity. Qed.

(** C1, amended: [loadb(dumpb(v))] is [v] for every supported value:
    None, booleans, integers of magnitude below 2^63, strings and bytes
    below 65535 bytes, the empty list, maps of supported values (hashable,
    pairwise unequal keys, content below 65535 bytes), and the reals the
    chosen precision keeps.  For any real: a zero comes back as +0.0, a
    real packed in double precision comes back bit for bit, and one packed
    in single precision comes back as its single-precision rounding. *)
Theorem dumpb_loadb_round_trip :
  (forall v use_double,
     supported use_double v = true ->
     exists b, dumpb v use_double = Ok b /\ loadb b = Ok v) /\
  (forall x use_double,
     float_is_zero x = true ->
     exists b, dumpb (VReal x) use_double = Ok b /\ loadb b = Ok (VReal 0)) /\
  (forall x,
     0 <= x < 2 ^ 64 -> float_is_zero x = false ->
     (exists b, dumpb (VReal x) true = Ok b /\ loadb b = Ok (VReal x)) /\
     (forall y, f64_to_f32 x = Ok y ->
        exists b, dumpb (VReal x) false = Ok b /\
                  loadb b = Ok (VReal (f32_to_f64 y)))).
Proof.
  split; [|split].
  - intros v ud Hs.
    destruct (round_trip_tail v ud Hs) as (b & Hb & _ & Hl).
    exists b. split; [exact Hb|]. unfold loadb.
    specialize (Hl []). rewrite app_nil_r in Hl. rewrite Hl. reflexivity.
  - intros x ud Hz. exists [x60]. cbn [dumpb]. unfold dump_real. rewrite Hz.
    split; reflexivity.
  - intros x Hx Hz. destruct (real_pack_unpack x [] Hx Hz) as [Hd Hs]. split.
    + destruct Hd as (b & Hb & _ & Hl). exists b. split; [exact Hb|].
      unfold loadb. rewrite app_nil_r in Hl. rewrite Hl. reflexivity.
    + intros y Hy. destruct (Hs y Hy) as (b & Hb & _ & Hl).
      exists b. split; [exact Hb|].
      unfold loadb. rewrite app_nil_r in Hl. rewrite Hl. reflexivity.
Qed.

Lemma dumpb_loadb_round_trip_witness :
  supported false
    (VMap [(VStr [x61], VInt 1);
           (VBytes [x62], VMap [(VInt (-40000), VReal 0x3FE0000000000000)]);
           (VNone, VBool true);
           (VReal 0x4004000000000000, VList [])]) = true /\
  exists b,
    dumpb
      (VMap [(VStr [x61], VInt 1);
             (VBytes [x62], VMap [(VInt (-40000), VReal 0x3FE0000000000000)]);
             (VNone, VBool true);
             (VReal 0x4004000000000000, VList [])]) false = Ok b /\
    loadb b =
    Ok (VMap [(VStr [x61], VInt 1);
              (VBytes [x62], VMap [(VInt (-40000), VReal 0x3FE0000000000000)]);
              (VNone, VBool true);
              (VReal 0x4004000000000000, VList [])]).
Proof.
  split; [reflexivity|].
  apply (proj1 dumpb_loadb_round_trip). reflexivity.
Defined.

(** ** The scenarios of the specification *)

Example dumpb_scenarios :
  dumpb VNone false = Ok [x00] /\
  dumpb (VBool true) false = Ok [x21; x01] /\
  dumpb (VBool false) false = Ok [x20] /\
  dumpb (VInt 123) false = Ok [x41; x7b] /\
  dumpb (VInt (-123)) false = Ok [x41; x85] /\
  dumpb (VStr [x48; x69]) false = Ok [x82; x48; x69] /\
  dumpb (VMap [(VStr [x61], VInt 1)]) false = Ok [xe4; x81; x61; x41; x01] /\
  loadb [xe4; x81; x61; x41; x01] = Ok (VMap [(VStr [x61], VInt 1)]) /\
  (r <- dumpb (VInt (-40000)) false ;; loadb r) = Ok (VInt (-40000)).
Proof. repeat split; reflexivity. Qed.

(** * Further properties of the code *)

(** ** [bit_len] *)

(** [bit_len] counts the binary digits of the magnitude: the sign does not
    matter, 0 has no digit, and any other [n] has
    [2^(bit_len n - 1) <= |n| < 2^(bit_len n)]. *)
Theorem bit_len_magnitude (n : Z) :
  bit_len (- n) = bit_len n /\
  (n = 0 -> bit_len n = 0) /\
  (n <> 0 -> 2 ^ (bit_len n - 1) <= Z.abs n < 2 ^ bit_len n).
Proof.
  split; [|split].
  - destruct n as [|p|p]; cbn [Z.opp]; [reflexivity| |];
      destruct (bit_len_pos p) as [E1 E2]; congruence.
  - intros ->. reflexivity.
  - intros Hn. destruct n as [|p|p]; [congruence| |];
      destruct (bit_len_pos p) as [E1 E2]; rewrite ?E1, ?E2; cbn [Z.abs];
      apply size_nat_bounds.
Qed.

(** ** Termination and progress of [_loadb] *)

(** The recursion of [_loadb] ends: any number of levels above the length
    of the buffer gives the same result, and that result is a value or an
    exception of the source. *)
Theorem _loadb_terminates (fuel : nat) (ba : list byte) :
  (List.length ba < fuel)%nat ->
  _loadb_fuel fuel ba = _loadb ba /\ _loadb ba <> Raise OutOfFuel.
Proof.
  intros H. split; [apply _loadb_fuel_enough; exact H | apply _loadb_total].
Qed.

Lemma _loadb_terminates_witness :
  (List.length [xe4; x81; x61; x41; x01] < 100)%nat /\
  _loadb_fuel 100 [xe4; x81; x61; x41; x01] = _loadb [xe4; x81; x61; x41; x01].
Proof.
  split; [cbn; lia|].
  apply (_loadb_terminates 100 [xe4; x81; x61; x41; x01]). cbn; lia.
Defined.

(** An element that decodes uses at least its header byte: what [_loadb]
    returns as the rest is the buffer without its first [n >= 1] bytes. *)
Theorem _loadb_consumes (ba : list byte) (v : Value) (rest : list byte) :
  _loadb ba = Ok (v, rest) ->
  exists n, (1 <= n)%nat /\ rest = skipn n ba.
Proof.
  rewrite _loadb_unfold. unfold loadb_body.
  destruct ba as [|b0 t]; [discriminate|].
  destruct (load_header (b0 :: t) b0) as [[[cl el] cr]|e] eqn:Hh;
    cbn [bind]; [|discriminate].
  apply load_header_bounds in Hh. destruct Hh as (_ & Hel & _).
  destruct (load_object _ _ cl cr); cbn [bind]; [|discriminate].
  intros H. injection H as _ <-.
  exists (Z.to_nat el). split; [lia | reflexivity].
Qed.

Lemma _loadb_consumes_witness :
  _loadb [x41; x7b; x20] = Ok (VInt 123, [x20]) /\
  exists n, (1 <= n)%nat /\ [x20] = skipn n [x41; x7b; x20].
Proof.
  split; [reflexivity|].
  apply (_loadb_consumes [x41; x7b; x20] (VInt 123) [x20]). reflexivity.
Defined.

(** ** Errors of the header *)

(** An empty buffer is refused with the error of the source, and a header
    that announces a 16-bit length without the two bytes of it fails in
    [unpack]. *)
Theorem _loadb_header_errors :
  _loadb [] = Raise (ValueError "Cannot unpack an empty pack") /\
  forall (b0 : byte) (t : list byte),
    Z.land (b2z b0) TP_SMALL_SIZE_MASK = TP_EXTENDED_SIZE_16 ->
    (List.length t < 2)%nat ->
    _loadb (b0 :: t) = Raise StructError.
Proof.
  split; [reflexivity|]. intros b0 t Hs Hl.
  rewrite _loadb_unfold. unfold loadb_body, load_header. rewrite Hs.
  destruct t as [|h [|l t]]; [reflexivity | reflexivity |].
  cbn [List.length] in Hl. lia.
Qed.

(** ** What [dumpb] emits *)

Lemma dump_block_type (tp : Z) (c : list byte) (msg : string) (b : list byte) :
  In tp [TP_NONE; TP_BOOLEAN; TP_INTEGER; TP_REAL;
         TP_STRING; TP_BYTES; TP_LIST; TP_MAP] ->
  dump_block tp c msg = Ok b -> elem_type b = Some tp.
Proof.
  intros Ht. pose proof (len_nonneg c) as Hn. unfold dump_block.
  unfold TP_SMALL_SIZE_MAX, TP_EXTENDED_SIZE_16, TP_EXTENDED_SIZE_32.
  destruct (header_byte_bits tp 31 Ht) as (Hr31 & Hty31 & _); [lia|].
  destruct (Z.leb_spec (len c) 30) as [Hs|Hs].
  - destruct (header_byte_bits tp (len c) Ht) as (Hr & Hty & _); [lia|].
    unfold pack_B_s. rewrite pack_unsigned_1 by exact Hr. cbn [bind].
    intros H. injection H as <-. cbn [app elem_type].
    rewrite b2z_z2b by exact Hr. rewrite Hty. reflexivity.
  - destruct (len c <? 65535).
    + unfold pack_BH_s. rewrite pack_unsigned_1 by exact Hr31. cbn [bind].
      destruct (pack_unsigned 2 (len c)); cbn [bind]; [|discriminate].
      intros H. injection H as <-. cbn [app elem_type].
      rewrite b2z_z2b by exact Hr31. rewrite Hty31. reflexivity.
    + destruct (len c <? 4294967295); [|discriminate].
      unfold pack_BHL_s. rewrite pack_unsigned_1 by exact Hr31. cbn [bind].
      destruct (pack_unsigned 2 65535); cbn [bind]; [|discriminate].
      destruct (pack_unsigned 4 (len c)); cbn [bind]; [|discriminate].
      intros H. injection H as <-. cbn [app elem_type].
      rewrite b2z_z2b by exact Hr31. rewrite Hty31. reflexivity.
Qed.

(** Whatever [dumpb] returns starts with a byte whose top three bits are the
    type constant of the value: the output is never empty and always says
    what it holds. *)
Theorem dumpb_type_bits (v : Value) (use_double : bool) (b : list byte) :
  dumpb v use_double = Ok b -> elem_type b = Some (type_code v).
Proof.
  destruct v as [ | c | n | x | s | s | items | items ]; cbn [type_code].
  - intros H. injection H as <-. reflexivity.
  - destruct c; intros H; injection H as <-; reflexivity.
  - cbn [dumpb]. rewrite dump_integer_by_magnitude.
    repeat match goal with
           | |- context [if ?c then _ else _] => destruct c
           end; intros H; try discriminate; injection H as <-; reflexivity.
  - cbn [dumpb]. unfold dump_real.
    destruct pack_unsigned_real_tags as [T8 T4]. rewrite T8, T4.
    destruct (float_is_zero x).
    + intros H. injection H as <-. reflexivity.
    + destruct use_double; cbn [bind].
      * intros H. injection H as <-. reflexivity.
      * destruct (f64_to_f32 x); cbn [bind]; [|discriminate].
        intros H. injection H as <-. reflexivity.
  - cbn [dumpb]. unfold str_encode_utf8.
    destruct (valid_utf8 s); cbn [bind]; [|discriminate].
    apply dump_block_type. cbn. tauto.
  - cbn [dumpb]. apply dump_block_type. cbn. tauto.
  - cbn [dumpb].
    destruct (join_map struct_pack_1 items); cbn [bind]; [|discriminate].
    apply dump_block_type. cbn. tauto.
  - rewrite dumpb_map_content.
    destruct (map_content items); cbn [bind]; [|discriminate].
    apply dump_block_type. cbn. tauto.
Qed.

Lemma dumpb_type_bits_witness :
  dumpb (VMap [(VStr [x61], VInt 1)]) false = Ok [xe4; x81; x61; x41; x01] /\
  elem_type [xe4; x81; x61; x41; x01] = Some TP_MAP.
Proof.
  split; [reflexivity|].
  apply (dumpb_type_bits (VMap [(VStr [x61], VInt 1)]) false). reflexivity.
Defined.

Lemma pack_unsigned_in_range (k : nat) (v : Z) :
  0 <= v < 2 ^ (8 * Z.of_nat k) -> pack_unsigned k v = Ok (be_bytes k v).
Proof.
  intros Hv. unfold pack_unsigned.
  replace ((0 <=? v) && (v <? 2 ^ (8 * Z.of_nat k))) with true; [reflexivity|].
  symmetry. apply andb_true_intro. split; [apply Z.leb_le | apply Z.ltb_lt]; lia.
Qed.

(** The three size tiers of a bytes object: up to 30 bytes the length sits
    in the header byte; below 65535 bytes it follows in two bytes; below
    2^32 - 1 bytes it follows the 0xFFFF escape in four bytes; from there on
    [dumpb] raises "Bytearray too long".  The content follows verbatim. *)
Theorem dumpb_bytes_tiers (s : list byte) (use_double : bool) :
  dumpb (VBytes s) use_double =
  if len s <=? 30 then Ok (z2b (Z.lor TP_BYTES (len s)) :: s)
  else if len s <? 0xFFFF then Ok (xbf :: be_bytes 2 (len s) ++ s)
  else if len s <? 0xFFFFFFFF then
    Ok (xbf :: xff :: xff :: be_bytes 4 (len s) ++ s)
  else Raise (ValueError "Bytearray too long").
Proof.
  cbn [dumpb]. unfold dump_block. pose proof (len_nonneg s) as Hn.
  unfold TP_SMALL_SIZE_MAX, TP_EXTENDED_SIZE_16, TP_EXTENDED_SIZE_32.
  destruct (Z.leb_spec (len s) 30) as [H1|H1].
  - destruct (header_byte_bits TP_BYTES (len s)) as (Hr & _); [cbn; tauto|lia|].
    unfold pack_B_s. rewrite pack_unsigned_1 by exact Hr. reflexivity.
  - destruct (Z.ltb_spec (len s) 65535) as [H2|H2].
    + unfold pack_BH_s.
      rewrite (pack_unsigned_in_range 2 (len s))
        by (change (2 ^ (8 * Z.of_nat 2)) with 65536; lia).
      reflexivity.
    + destruct (Z.ltb_spec (len s) 4294967295) as [H3|H3]; [|reflexivity].
      unfold pack_BHL_s.
      rewrite (pack_unsigned_in_range 4 (len s))
        by (change (2 ^ (8 * Z.of_nat 4)) with 4294967296; lia).
      reflexivity.
Qed.

(** [use_double] reaches only a real at the top: [dumpb] does not pass it
    on, so every other value, also a map that holds reals, is packed the
    same with and without it (reals inside in single precision). *)
Theorem dumpb_use_double_top_only (v : Value) :
  (forall x, v <> VReal x) -> dumpb v true = dumpb v false.
Proof.
  intros H. destruct v; try reflexivity. exfalso. apply (H bits). reflexivity.
Qed.

Lemma dumpb_use_double_top_only_witness :
  dumpb (VMap [(VInt 1, VReal 0x3FB999999999999A)]) true
  = dumpb (VMap [(VInt 1, VReal 0x3FB999999999999A)]) false /\
  dumpb (VMap [(VInt 1, VReal 0x3FB999999999999A)]) true
  = Ok [xe7; x41; x01; x64; x3d; xcc; xcc; xcd].
Proof.
  split; [|reflexivity].
  apply (dumpb_use_double_top_only (VMap [(VInt 1, VReal 0x3FB999999999999A)])).
  intros x. discriminate.
Defined.

(** ** Integers and reals in [_loadb] *)

(** [_loadb] reads an integer at each of the widths 1, 2, 4 and 8, minimal
    or not: the big-endian two's-complement bytes of [n] behind an Integer
    header of that width decode to [n]. *)
Theorem loadb_integer_any_width (k : nat) (n : Z) (tail : list byte) :
  In k [1; 2; 4; 8]%nat ->
  - 2 ^ (8 * Z.of_nat k - 1) <= n < 2 ^ (8 * Z.of_nat k - 1) ->
  _loadb (z2b (Z.lor TP_INTEGER (Z.of_nat k)) :: be_bytes k n ++ tail)
  = Ok (VInt n, tail).
Proof.
  intros Hk Hn.
  assert (Hlen : len (be_bytes k n) = Z.of_nat k)
    by (unfold len; rewrite be_bytes_length; reflexivity).
  assert (Hpos : (0 < k)%nat)
    by (cbn [In] in Hk; destruct Hk as [<-|[<-|[<-|[<-|[]]]]]; lia).
  rewrite (_loadb_frame _ TP_INTEGER (Z.of_nat k) (be_bytes k n) tail).
  - replace (load_object _loadb TP_INTEGER (Z.of_nat k) (be_bytes k n))
      with (r <- unpack_signed k (be_bytes k n) ;; Ok (VInt r))
      by (cbn [In] in Hk; destruct Hk as [<-|[<-|[<-|[<-|[]]]]]; reflexivity).
    rewrite unpack_signed_be_bytes by assumption. reflexivity.
  - cbn [In] in Hk. destruct Hk as [<-|[<-|[<-|[<-|[]]]]]; reflexivity.
  - rewrite <- Hlen. apply frame_direct; rewrite Hlen;
      cbn [In] in Hk; destruct Hk as [<-|[<-|[<-|[<-|[]]]]];
      reflexivity || (cbn; lia).
Qed.

Lemma loadb_integer_any_width_witness :
  In 8%nat [1; 2; 4; 8]%nat /\
  - 2 ^ (8 * Z.of_nat 8 - 1) <= 1 < 2 ^ (8 * Z.of_nat 8 - 1) /\
  _loadb [x48; x00; x00; x00; x00; x00; x00; x00; x01; x20]
  = Ok (VInt 1, [x20]).
Proof.
  split; [cbn; tauto|]. split; [cbn; lia|].
  apply (loadb_integer_any_width 8 1 [x20]); [cbn; tauto | cbn; lia].
Defined.

(** An Integer element whose declared length is none of 0, 1, 2, 4, 8, and
    a Real element whose declared length is none of 0, 4, 8, are refused
    with the [ValueError] of their branch, whatever the content. *)
Theorem loadb_numeric_width_errors (ba : list byte) cl cr tail :
  frame ba = Some (cl, cr, tail) ->
  (elem_type ba = Some TP_INTEGER ->
   ~ In cl [0; 1; 2; 4; 8] ->
   _loadb ba = Raise (ValueError "Integer number too big")) /\
  (elem_type ba = Some TP_REAL ->
   ~ In cl [0; 4; 8] ->
   _loadb ba = Raise (ValueError "Real number too big")).
Proof.
  intros Hf. split; intros Ht Hw; rewrite (_loadb_frame _ _ _ _ _ Ht Hf);
    unfold load_object; cbn [In] in Hw.
  - change (TP_INTEGER =? TP_NONE) with false.
    change (TP_INTEGER =? TP_BOOLEAN) with false.
    change (TP_INTEGER =? TP_INTEGER) with true. cbv iota.
    destruct (Z.eqb_spec cl 0); [lia|]. destruct (Z.eqb_spec cl 1); [lia|].
    destruct (Z.eqb_spec cl 2); [lia|]. destruct (Z.eqb_spec cl 4); [lia|].
    destruct (Z.eqb_spec cl 8); [lia|]. reflexivity.
  - change (TP_REAL =? TP_NONE) with false.
    change (TP_REAL =? TP_BOOLEAN) with false.
    change (TP_REAL =? TP_INTEGER) with false.
    change (TP_REAL =? TP_REAL) with true. cbv iota.
    destruct (Z.eqb_spec cl 0); [lia|]. destruct (Z.eqb_spec cl 4); [lia|].
    destruct (Z.eqb_spec cl 8); [lia|]. reflexivity.
Qed.

Lemma loadb_numeric_width_errors_witness :
  frame [x43; x01; x02; x03] = Some (3, [x01; x02; x03], []) /\
  _loadb [x43; x01; x02; x03] = Raise (ValueError "Integer number too big").
Proof.
  split; [reflexivity|].
  apply (proj1 (loadb_numeric_width_errors [x43; x01; x02; x03]
                  3 [x01; x02; x03] [] eq_refl)); [reflexivity|].
  cbn [In]. intros H. repeat destruct H as [H|H]; try discriminate H. exact H.
Defined.

(** ** Elements one after the other *)

Lemma frame_app (ba : list byte) cl cr tail (extra : list byte) :
  frame ba = Some (cl, cr, tail) -> len cr = cl ->
  frame (ba ++ extra) = Some (cl, cr, tail ++ extra).
Proof.
  unfold frame, len. destruct ba as [|b0 t]; [discriminate|]. cbn [app].
  assert (G : forall (n : nat) (l : list byte),
             List.length (firstn n l) = n ->
             firstn n (l ++ extra) = firstn n l /\
             skipn n (l ++ extra) = skipn n l ++ extra).
  { intros n l Hl. rewrite length_firstn in Hl.
    rewrite firstn_app, skipn_app.
    replace (n - List.length l)%nat with 0%nat by lia.
    cbn [firstn skipn]. rewrite app_nil_r. split; reflexivity. }
  destruct (Z.land (b2z b0) 31 <? 31).
  - intros H. injection H as <- <- <-. intros Hl.
    pose proof (len_nonneg (firstn (Z.to_nat (Z.land (b2z b0) 31)) t)).
    destruct (G (Z.to_nat (Z.land (b2z b0) 31)) t) as [-> ->];
      [unfold len in *; lia | reflexivity].
  - destruct t as [|h [|l rest]]; try discriminate. cbn [app].
    destruct (b2z h * 256 + b2z l <? 65535); [|discriminate].
    intros H. injection H as <- <- <-. intros Hl.
    pose proof (len_nonneg (firstn (Z.to_nat (b2z h * 256 + b2z l)) rest)).
    destruct (G (Z.to_nat (b2z h * 256 + b2z l)) rest) as [-> ->];
      [unfold len in *; lia | reflexivity].
Qed.

(** Bytes behind a complete element do not change what it decodes to: when
    the buffer holds all the content its header declares, [_loadb] on the
    buffer followed by [extra] gives the same outcome, with [extra] added to
    the rest. *)
Theorem _loadb_ignores_what_follows (ba : list byte) cl cr tail
  (extra : list byte) :
  frame ba = Some (cl, cr, tail) -> len cr = cl ->
  _loadb (ba ++ extra) =
  match _loadb ba with
  | Ok (v, rest) => Ok (v, rest ++ extra)
  | Raise e => Raise e
  end.
Proof.
  intros Hf Hl. pose proof (frame_app _ _ _ _ extra Hf Hl) as Hf'.
  destruct ba as [|b0 t]; [discriminate|].
  rewrite (_loadb_frame ((b0 :: t) ++ extra) _ _ _ _ eq_refl Hf').
  rewrite (_loadb_frame (b0 :: t) _ _ _ _ eq_refl Hf).
  cbn [app elem_type].
  destruct (load_object _loadb _ cl cr); reflexivity.
Qed.

Lemma _loadb_ignores_what_follows_witness :
  frame [x82; x48; x69] = Some (2, [x48; x69], []) /\
  len [x48; x69] = 2 /\
  _loadb ([x82; x48; x69] ++ [xff; xff]) = Ok (VStr [x48; x69], [xff; xff]).
Proof.
  split; [reflexivity|]. split; [reflexivity|].
  apply (_loadb_ignores_what_follows [x82; x48; x69] 2 [x48; x69] []
           [xff; xff]); reflexivity.
Defined.

Lemma elements_fuel :
  forall (n m : nat) (raw : list byte),
    (List.length raw <= n)%nat -> (List.length raw <= m)%nat ->
    elements n raw = elements m raw.
Proof.
  induction n as [|n IH]; intros m raw Hn Hm.
  - destruct raw; [destruct m; reflexivity | cbn [List.length] in Hn; lia].
  - destruct raw as [|c raw]; [destruct m; reflexivity|].
    destruct m as [|m]; [cbn [List.length] in Hm; lia|].
    cbn [elements].
    destruct (_loadb (c :: raw)) as [[v rest]|e] eqn:E; cbn [bind fst snd];
      [|reflexivity].
    apply _loadb_shrinks in E.
    rewrite (IH m rest) by lia. reflexivity.
Qed.

(** A buffer made of the encodings of supported values, one after the
    other, is taken apart again by calling [_loadb] on what the previous
    call left: the values come back in order. *)
Theorem dumpb_stream_decodes (vs : list Value) (c : list byte) :
  forallb (supported false) vs = true ->
  join_map (fun v => dumpb v false) vs = Ok c ->
  elements (List.length c) c = Ok vs.
Proof.
  revert c. induction vs as [|v vs IH]; intros c Hs Hc.
  - injection Hc as <-. reflexivity.
  - cbn [forallb] in Hs. apply andb_prop in Hs. destruct Hs as [Hv Hvs].
    cbn [join_map] in Hc.
    destruct (round_trip_tail v false Hv) as (b & Hb & Hne & Hl).
    rewrite Hb in Hc. cbn [bind] in Hc.
    destruct (join_map _ vs) as [r|e] eqn:Er; cbn [bind] in Hc;
      [|discriminate].
    injection Hc as <-.
    destruct b as [|b0 b]; [congruence|].
    cbn [app List.length elements].
    change (b0 :: b ++ r) with ((b0 :: b) ++ r). rewrite Hl. cbn [bind fst snd].
    rewrite (elements_fuel _ (List.length r) r)
      by (rewrite ?length_app; lia).
    rewrite (IH r Hvs eq_refl). reflexivity.
Qed.

Lemma dumpb_stream_decodes_witness :
  forallb (supported false) [VInt 1; VStr [x48; x69]; VNone] = true /\
  join_map (fun v => dumpb v false) [VInt 1; VStr [x48; x69]; VNone]
  = Ok [x41; x01; x82; x48; x69; x00] /\
  elements 6 [x41; x01; x82; x48; x69; x00]
  = Ok [VInt 1; VStr [x48; x69]; VNone].
Proof.
  split; [reflexivity|]. split; [reflexivity|].
  apply (dumpb_stream_decodes [VInt 1; VStr [x48; x69]; VNone]
           [x41; x01; x82; x48; x69; x00]); reflexivity.
Defined.

(** ** The values [_loadb] builds *)

Lemma be_value_bound (l : list byte) : be_value l < 256 ^ len l.
Proof.
  induction l as [|b l IH] using rev_ind.
  - unfold be_value, len; cbn. lia.
  - rewrite be_value_app. unfold be_value at 2; cbn [fold_left].
    pose proof (b2z_range b). pose proof (be_value_nonneg l).
    unfold len in *. rewrite length_app. cbn [List.length].
    rewrite Nat2Z.inj_add. change (Z.of_nat 1) with 1.
    rewrite Z.pow_add_r by lia. change (256 ^ 1) with 256. lia.
Qed.

Lemma unpack_signed_range (k : nat) (raw : list byte) (n : Z) :
  In k [1; 2; 4; 8]%nat ->
  unpack_signed k raw = Ok n -> - 2 ^ 63 <= n < 2 ^ 63.
Proof.
  intros Hk. unfold unpack_signed, unpack_exact.
  destruct (Nat.eqb_spec (List.length raw) k) as [E|E]; cbn [bind];
    [|discriminate].
  intros H. injection H as <-.
  pose proof (be_value_bound raw) as Hb. pose proof (be_value_nonneg raw) as H0.
  unfold len in Hb. rewrite E in Hb. unfold to_signed.
  change (2 ^ 63) with 9223372036854775808.
  cbn [In] in Hk. destruct Hk as [<-|[<-|[<-|[<-|[]]]]].
  - change (256 ^ Z.of_nat 1) with 256 in Hb.
    change (2 ^ (8 * Z.of_nat 1 - 1)) with 128.
    change (2 ^ (8 * Z.of_nat 1)) with 256.
    destruct (Z.ltb_spec (be_value raw) 128); lia.
  - change (256 ^ Z.of_nat 2) with 65536 in Hb.
    change (2 ^ (8 * Z.of_nat 2 - 1)) with 32768.
    change (2 ^ (8 * Z.of_nat 2)) with 65536.
    destruct (Z.ltb_spec (be_value raw) 32768); lia.
  - change (256 ^ Z.of_nat 4) with 4294967296 in Hb.
    change (2 ^ (8 * Z.of_nat 4 - 1)) with 2147483648.
    change (2 ^ (8 * Z.of_nat 4)) with 4294967296.
    destruct (Z.ltb_spec (be_value raw) 2147483648); lia.
  - change (256 ^ Z.of_nat 8) with 18446744073709551616 in Hb.
    change (2 ^ (8 * Z.of_nat 8 - 1)) with 9223372036854775808.
    change (2 ^ (8 * Z.of_nat 8)) with 18446744073709551616.
    destruct (Z.ltb_spec (be_value raw) 9223372036854775808); lia.
Qed.

Lemma decoded_ok_map (items : list (Value * Value)) :
  decoded_ok (VMap items) =
  forallb hashable (map fst items)
  && keys_distinct (map fst items)
  && forallb (fun item => decoded_ok (fst item) && decoded_ok (snd item))
             items.
Proof.
  reflexivity.
Qed.

Lemma dict_store_keys (obj : dict) (k v : Value) :
  map fst (dict_store obj k v) = map fst obj \/
  map fst (dict_store obj k v) = map fst obj ++ [k].
Proof.
  induction obj as [|[k0 v0] rest IH]; cbn [dict_store map fst app].
  - right. reflexivity.
  - destruct (key_eqb k0 k); cbn [map fst].
    + left. reflexivity.
    + destruct IH as [-> | ->]; [left | right]; reflexivity.
Qed.

Ltac split_andb :=
  repeat match goal with
         | H : _ && _ = true |- _ => apply andb_prop in H; destruct H
         end.

(** [obj[key] = value] keeps the keys of a dict hashable and pairwise
    unequal. *)
Lemma dict_store_ok (obj : dict) (k v : Value) :
  decoded_ok (VMap obj) = true ->
  hashable k = true -> decoded_ok k = true -> decoded_ok v = true ->
  decoded_ok (VMap (dict_store obj k v)) = true.
Proof.
  rewrite !decoded_ok_map. intros Ho Hh Hk Hv.
  induction obj as [|[k0 v0] rest IH].
  - cbn. rewrite Hh, Hk, Hv. reflexivity.
  - cbn [map fst snd forallb keys_distinct] in Ho. split_andb.
    cbn [dict_store].
    destruct (key_eqb k0 k) eqn:E0.
    + cbn [map fst snd forallb keys_distinct].
      repeat (apply andb_true_intro; split); assumption.
    + assert (IH' : forallb hashable (map fst (dict_store rest k v))
                    && keys_distinct (map fst (dict_store rest k v))
                    && forallb (fun item =>
                                  decoded_ok (fst item) && decoded_ok (snd item))
                               (dict_store rest k v) = true).
      { apply IH. repeat (apply andb_true_intro; split); assumption. }
      split_andb.
      cbn [map fst snd forallb keys_distinct].
      repeat (apply andb_true_intro; split); try assumption.
      apply negb_true_iff.
      match goal with
      | Hn : negb (existsb _ (map fst rest)) = true |- _ =>
          apply negb_true_iff in Hn;
          destruct (dict_store_keys rest k v) as [-> | ->]; [assumption|];
          rewrite existsb_app, Hn
      end.
      cbn [existsb orb]. rewrite E0. reflexivity.
Qed.

Lemma map_loop_ok rec :
  (forall x v r, rec x = Ok (v, r) -> decoded_ok v = true) ->
  forall (n : nat) (obj : dict) (raw : list byte) (obj' : dict),
    decoded_ok (VMap obj) = true ->
    map_loop rec n obj raw = Ok obj' ->
    decoded_ok (VMap obj') = true.
Proof.
  intros Hrec. induction n as [|n IH]; intros obj raw obj' Ho.
  - destruct raw; cbn [map_loop]; [|discriminate].
    intros H. injection H as <-. exact Ho.
  - destruct raw as [|c raw]; cbn [map_loop].
    { intros H. injection H as <-. exact Ho. }
    destruct (rec (c :: raw)) as [[k r1]|e] eqn:E1; cbn [bind];
      [|discriminate].
    destruct r1 as [|c1 r1]; [discriminate|].
    destruct (rec (c1 :: r1)) as [[v r2]|e] eqn:E2; cbn [bind];
      [|discriminate].
    unfold dict_setitem. destruct (hashable k) eqn:Hh; cbn [bind];
      [|discriminate].
    apply IH. apply dict_store_ok; auto.
    + apply (Hrec _ _ _ E1).
    + apply (Hrec _ _ _ E2).
Qed.

Lemma load_object_ok rec ct cl (cr : list byte) (v : Value) :
  (forall x v r, rec x = Ok (v, r) -> decoded_ok v = true) ->
  load_object rec ct cl cr = Ok v -> decoded_ok v = true.
Proof.
  intros Hrec. unfold load_object.
  destruct (ct =? TP_NONE); [intros H; injection H as <-; reflexivity|].
  destruct (ct =? TP_BOOLEAN).
  { destruct (negb (cl =? 0)); [|intros H; injection H as <-; reflexivity].
    destruct cr as [|c cr]; [discriminate|].
    destruct (negb (b2z c =? 0)); [|discriminate].
    intros H; injection H as <-; reflexivity. }
  destruct (ct =? TP_INTEGER).
  { assert (G : forall k, In k [1; 2; 4; 8]%nat ->
                  (n <- unpack_signed k cr ;; Ok (VInt n)) = Ok v ->
                  decoded_ok v = true).
    { intros k Hk. destruct (unpack_signed k cr) as [n|e] eqn:E;
        cbn [bind]; [|discriminate].
      intros H; injection H as <-. cbn [decoded_ok].
      destruct (unpack_signed_range k cr n Hk E).
      apply andb_true_intro. split; [apply Z.leb_le | apply Z.ltb_lt]; lia. }
    destruct (cl =? 0); [intros H; injection H as <-; reflexivity|].
    destruct (cl =? 1); [apply (G 1%nat); cbn; tauto|].
    destruct (cl =? 2); [apply (G 2%nat); cbn; tauto|].
    destruct (cl =? 4); [apply (G 4%nat); cbn; tauto|].
    destruct (cl =? 8); [apply (G 8%nat); cbn; tauto|].
    discriminate. }
  destruct (ct =? TP_REAL).
  { destruct (cl =? 0); [intros H; injection H as <-; reflexivity|].
    destruct (cl =? 4).
    { destruct (unpack_exact 4 cr); cbn [bind]; [|discriminate].
      intros H; injection H as <-; reflexivity. }
    destruct (cl =? 8); [|discriminate].
    destruct (unpack_exact 8 cr); cbn [bind]; [|discriminate].
    intros H; injection H as <-; reflexivity. }
  destruct (ct =? TP_STRING).
  { destruct (bytes_decode_utf8 cr); cbn [bind]; [|discriminate].
    intros H; injection H as <-; reflexivity. }
  destruct (ct =? TP_BYTES); [intros H; injection H as <-; reflexivity|].
  destruct (ct =? TP_LIST).
  { rewrite list_loop_length. destruct cr; cbn [bind]; [|discriminate].
    intros H; injection H as <-; reflexivity. }
  destruct (ct =? TP_MAP); [|discriminate].
  destruct (map_loop rec (List.length cr) [] cr) as [obj|e] eqn:E;
    cbn [bind]; [|discriminate].
  intros H; injection H as <-.
  apply (map_loop_ok rec Hrec (List.length cr) [] cr obj);
    [reflexivity | exact E].
Qed.

Lemma _loadb_fuel_ok :
  forall (fuel : nat) (ba : list byte) v rest,
    _loadb_fuel fuel ba = Ok (v, rest) -> decoded_ok v = true.
Proof.
  induction fuel as [|fuel IH]; intros ba v rest; cbn [_loadb_fuel];
    [discriminate|].
  unfold loadb_body. destruct ba as [|b0 t]; [discriminate|].
  destruct (load_header (b0 :: t) b0) as [[[cl el] cr]|e]; cbn [bind];
    [|discriminate].
  destruct (load_object (_loadb_fuel fuel) _ cl cr) as [obj|e] eqn:E;
    cbn [bind]; [|discriminate].
  intros H; injection H as <- _.
  apply (load_object_ok _ _ _ _ _ IH E).
Qed.

(** Every value [_loadb] returns is well formed, at any depth: its integers
    are in the 64-bit signed range, its lists are empty (the list branch
    fails on any content), and its maps have hashable, pairwise unequal
    keys. *)
Theorem _loadb_value_well_formed (ba : list byte) (v : Value)
  (rest : list byte) :
  _loadb ba = Ok (v, rest) -> decoded_ok v = true.
Proof. apply _loadb_fuel_ok. Qed.

Lemma _loadb_value_well_formed_witness :
  _loadb [xe8; x41; x01; x41; x02; x41; x01; x41; x03]
  = Ok (VMap [(VInt 1, VInt 3)], []) /\
  decoded_ok (VMap [(VInt 1, VInt 3)]) = true.
Proof.
  split; [reflexivity|].
  apply (_loadb_value_well_formed
           [xe8; x41; x01; x41; x02; x41; x01; x41; x03]
           (VMap [(VInt 1, VInt 3)]) []).
  reflexivity.
Defined.

(** ** Strings and bytes in [_loadb] *)

(** A Bytes element decodes to its content bytes as they are; a String
    element decodes to its content when that is valid UTF-8 and raises the
    decoding error otherwise.  What follows the content is the rest. *)
Theorem loadb_string_bytes (ba : list byte) cl cr tail :
  frame ba = Some (cl, cr, tail) ->
  (elem_type ba = Some TP_BYTES -> _loadb ba = Ok (VBytes cr, tail)) /\
  (elem_type ba = Some TP_STRING ->
   _loadb ba =
   if valid_utf8 cr then Ok (VStr cr, tail) else Raise UnicodeError).
Proof.
  intros Hf. split; intros Ht; rewrite (_loadb_frame _ _ _ _ _ Ht Hf).
  - rewrite (proj1 (proj2 (load_object_block _ _ _))). reflexivity.
  - rewrite (proj1 (load_object_block _ _ _)). unfold bytes_decode_utf8.
    destruct (valid_utf8 cr); reflexivity.
Qed.

Lemma loadb_string_bytes_witness :
  frame [x82; xc3; x28; x00] = Some (2, [xc3; x28], [x00]) /\
  _loadb [x82; xc3; x28; x00] = Raise UnicodeError /\
  frame [xa2; xc3; x28; x00] = Some (2, [xc3; x28], [x00]) /\
  _loadb [xa2; xc3; x28; x00] = Ok (VBytes [xc3; x28], [x00]).
Proof.
  split; [reflexivity|]. split.
  - apply (proj2 (loadb_string_bytes [x82; xc3; x28; x00]
                    2 [xc3; x28] [x00] eq_refl)). reflexivity.
  - split; [reflexivity|].
    apply (proj1 (loadb_string_bytes [xa2; xc3; x28; x00]
                    2 [xc3; x28] [x00] eq_refl)). reflexivity.
Defined.

(** ** Reals too large for single precision *)

(** A finite real of magnitude 2^128 or more (exponent field 1151..2046)
    does not fit single precision: without [use_double], [dumpb] raises
    [OverflowError] from [pack(">Bf", ...)]; with it, the real is packed in
    eight bytes. *)
Theorem dumpb_real_overflow (x : Z) :
  1151 <= (x / 2 ^ 52) mod 2048 <= 2046 ->
  dumpb (VReal x) false = Raise OverflowError /\
  dumpb (VReal x) true = Ok (x68 :: be_bytes 8 x).
Proof.
  intros He. cbn [dumpb]. unfold dump_real.
  assert (Hz : float_is_zero x = false).
  { unfold float_is_zero.
    destruct (Z.eqb_spec x 0) as [->|_]; [cbn in He; lia|].
    destruct (Z.eqb_spec x (2 ^ 63)) as [->|_]; [cbn in He; lia|].
    reflexivity. }
  rewrite Hz. split; [|reflexivity].
  destruct pack_unsigned_real_tags as [_ T4]. rewrite T4. cbn [bind].
  replace (f64_to_f32 x) with (@Raise Z OverflowError); [reflexivity|].
  unfold f64_to_f32.
  pose proof (Z.mod_pos_bound x (2 ^ 52) ltac:(lia)) as Hm.
  set (e := (x / 2 ^ 52) mod 2048) in *.
  set (m := x mod 2 ^ 52) in *.
  replace (e =? 2047) with false by (symmetry; apply Z.eqb_neq; lia).
  replace (e =? 0) with false by (symmetry; apply Z.eqb_neq; lia).
  replace (-126 <=? e - 1023) with true by (symmetry; apply Z.leb_le; lia).
  set (q := (2 ^ 52 + m) / 2 ^ 29).
  assert (Hq : 2 ^ 23 <= q).
  { unfold q. apply Z.div_le_lower_bound; [lia|].
    change (2 ^ 29 * 2 ^ 23) with (2 ^ 52). lia. }
  change (2 ^ 23) with 8388608 in *.
  match goal with
  | |- context [if ?c then q + 1 else q] =>
      set (q' := if c then q + 1 else q);
      assert (Hq' : q <= q') by (unfold q'; destruct c; lia)
  end.
  replace (0x7F800000 <=? (e - 1023 + 126) * 8388608 + q') with true;
    [reflexivity|].
  symmetry. apply Z.leb_le. change 0x7F800000 with 2139095040. nia.
Qed.

Lemma dumpb_real_overflow_witness :
  1151 <= (0x47F0000000000000 / 2 ^ 52) mod 2048 <= 2046 /\
  dumpb (VReal 0x47F0000000000000) false = Raise OverflowError.
Proof.
  assert (H : 1151 <= (0x47F0000000000000 / 2 ^ 52) mod 2048 <= 2046)
    by (split; apply Z.leb_le; reflexivity).
  split; [exact H|].
  exact (proj1 (dumpb_real_overflow 0x47F0000000000000 H)).
Defined.

(** ** The demonstration of the source *)

(** The dictionary the module packs when run as a script comes back from
    [loadb(dumpb(data))]. *)
Example main_demo_round_trip :
  let data :=
    VMap [(VStr [x74; x65; x78; x74],
           VStr [x48; x65; x6c; x6c; x6f; x20; x77; x6f; x72; x6c; x64; x21]);
          (VBytes [x62; x69; x6e], VBytes [x61; x72; x79]);
          (VStr [x73; x74; x61; x74; x75; x73], VBool true);
          (VStr [x6e; x6f; x74; x5f; x73; x74; x61; x74; x75; x73],
           VBool false);
          (VStr [x61; x76; x67], VReal 0x3FE0000000000000);
          (VStr [x63; x6f; x75; x6e; x74], VInt 123);
          (VStr [x63; x6f; x75; x6e; x74; x64; x6f; x77; x6e], VInt (-123))]
  in (r <- dumpb data false ;; loadb r) = Ok data.
Proof. vm_compute. reflexivity. Qed.
